(** * The in-game script console of [src/ui/console.c]

    The console feeds one line of text per submission to the script
    runtime (reader, evaluator, collector) and registers one native
    callback, [rect_apply_force], through which a script reaches the
    rigid rectangles of the level.

    Layout of the development:
    - a small state-and-fault monad for the stateful C code;
    - the value model, the heap and the accessor macros of the script
      runtime's headers;
    - the game entities reached by the native callback;
    - [rect_apply_force], [create_console] and [console_handle_event]
      of [console.c], written over the interfaces the file includes;
    - the script runtime itself (scope, reader, evaluator, collector),
      whose sources are not part of the two files at hand;
    - the properties. *)

From Stdlib Require Import ZArith List String Ascii Bool Arith Lia.
From Stdlib Require Import Floats.PrimFloat.
Import ListNotations.

Local Open Scope string_scope.
Local Open Scope list_scope.

(* ===================================================================== *)
(** * Runs of stateful code *)
(* ===================================================================== *)

(** What stops a C function before it returns: a failed [assert], or the
    use of a handle that designates no object of the host. *)
Inductive Fault : Type :=
| AssertionFailed
| InvalidAccess.

Inductive Outcome (A : Type) : Type :=
| Done (a : A)
| Stopped (f : Fault).
Arguments Done {A} a.
Arguments Stopped {A} f.

(** A computation over a state [S]. The state reached is kept when the
    computation stops, so that what was done before the stop stays
    observable. *)
Definition ST (S A : Type) : Type := S -> Outcome A * S.

Definition ret {S A} (a : A) : ST S A := fun s => (Done a, s).

Definition bind {S A B} (c : ST S A) (k : A -> ST S B) : ST S B :=
  fun s =>
    match c s with
    | (Done a, s') => k a s'
    | (Stopped f, s') => (Stopped f, s')
    end.

Definition stop {S A} (f : Fault) : ST S A := fun s => (Stopped f, s).
Definition gets {S A} (proj : S -> A) : ST S A := fun s => (Done (proj s), s).
Definition modify {S} (upd : S -> S) : ST S unit := fun s => (Done tt, upd s).

(** [assert(cond)] of <assert.h>. *)
Definition assert {S} (cond : bool) : ST S unit :=
  if cond then ret tt else stop AssertionFailed.

(** Following a handle: [None] is a handle that designates nothing. *)
Definition access {S A} (o : option A) : ST S A :=
  match o with
  | Some a => ret a
  | None => stop InvalidAccess
  end.

Declare Scope run_scope.
Delimit Scope run_scope with run.
Notation "x <- c ;; k" := (bind c (fun x => k))
  (at level 61, c at next level, right associativity) : run_scope.
Notation "c ;; k" := (bind c (fun _ => k))
  (at level 61, right associativity) : run_scope.
Local Open Scope run_scope.

(* ===================================================================== *)
(** * Values of the script runtime *)
(* ===================================================================== *)

(** A heap address. [NULL] is address 0 and is never handed out. *)
Definition ptr : Type := nat.
Definition NULL : ptr := 0.

(** The host functions a [Native] value can wrap. The C type is a function
    pointer; [console.c] registers exactly one function. *)
Inductive NativeFunction : Type :=
| Rect_apply_force.

(** Modelled from the spec: the tagged value of section 3 (the header
    script/expr.h is not among the sources). Every value is a heap object:
    it carries the address it was allocated at, next to its content, which
    never changes once constructed. Two handles with the same address are
    the same object (shared substructure).
    - [Number]: "a single floating-point scalar", held as a binary64;
    - [Native]: "a function pointer plus one opaque captured context
      value", the context being an address the callback interprets. *)
Inductive Expr : Type :=
| Nil (at_ : ptr)
| Number (at_ : ptr) (num : float)
| Symbol (at_ : ptr) (sym : string)
| String_ (at_ : ptr) (str : string)
| Pair (at_ : ptr) (car cdr : Expr)
| Native (at_ : ptr) (fn : NativeFunction) (param : ptr).

Definition address (e : Expr) : ptr :=
  match e with
  | Nil p | Number p _ | Symbol p _ | String_ p _ | Pair p _ _ | Native p _ _ => p
  end.

(** Modelled from the spec: the heap of section 4.1 (script/gc.h is not
    among the sources): "allocation primitives register the new Value in
    the heap's live-allocation set". [live] lists the registered addresses,
    newest first; [fresh] is the next address to hand out. Running out of
    memory is outside the model. *)
Record Gc : Type := mkGc {
  live : list ptr;
  fresh : ptr
}.

Definition alloc (gc : Gc) : ptr * Gc :=
  (fresh gc, {| live := fresh gc :: live gc; fresh := S (fresh gc) |}).

(** The constructor macros [NIL], [NUMBER], [SYMBOL], [STRING], [CONS] and
    [NATIVE]: each registers one new object in [gc]. *)
Definition NIL (gc : Gc) : Expr * Gc :=
  let (p, gc') := alloc gc in (Nil p, gc').
Definition NUMBER (gc : Gc) (num : float) : Expr * Gc :=
  let (p, gc') := alloc gc in (Number p num, gc').
Definition SYMBOL (gc : Gc) (sym : string) : Expr * Gc :=
  let (p, gc') := alloc gc in (Symbol p sym, gc').
Definition STRING (gc : Gc) (str : string) : Expr * Gc :=
  let (p, gc') := alloc gc in (String_ p str, gc').
Definition CONS (gc : Gc) (car cdr : Expr) : Expr * Gc :=
  let (p, gc') := alloc gc in (Pair p car cdr, gc').
Definition NATIVE (gc : Gc) (fn : NativeFunction) (param : ptr) : Expr * Gc :=
  let (p, gc') := alloc gc in (Native p fn param, gc').

(** What the platform fixes and the C language does not: the value of
    [(float) x], and what a member of a union yields when the object holds
    another variant (the bytes found there, read at the member's type). *)
Class Platform : Type := {
  float_cast : float -> float;
  car_misread : Expr -> Expr;
  cdr_misread : Expr -> Expr;
  str_misread : Expr -> string;
  num_misread : Expr -> float
}.

(** The accessor macros [CAR(x)] = [(x).cons->car] and [CDR(x)] =
    [(x).cons->cdr], and the members [.atom->str] and [.atom->num]. Each
    reads one member of a union and tests no tag: on the variant that
    holds the member it yields the member, on any other variant it yields
    what the platform finds there. *)
Definition CAR {PF : Platform} (x : Expr) : Expr :=
  match x with Pair _ a _ => a | _ => car_misread x end.
Definition CDR {PF : Platform} (x : Expr) : Expr :=
  match x with Pair _ _ d => d | _ => cdr_misread x end.
Definition atom_str {PF : Platform} (x : Expr) : string :=
  match x with String_ _ s => s | _ => str_misread x end.
Definition atom_num {PF : Platform} (x : Expr) : float :=
  match x with Number _ n => n | _ => num_misread x end.

(** [struct Scope { struct Expr expr; }]. *)
Record Scope : Type := mkScope {
  scope_expr : Expr
}.

(** [struct EvalResult]: the flag and the expression (the result on
    success, the payload on failure). *)
Record EvalResult : Type := mkEvalResult {
  eval_is_error : bool;
  eval_expr : Expr
}.
Definition eval_success (expr : Expr) : EvalResult :=
  {| eval_is_error := false; eval_expr := expr |}.
Definition eval_failure (expr : Expr) : EvalResult :=
  {| eval_is_error := true; eval_expr := expr |}.

(** [struct ParseResult]: "either a successful expression plus
    consumed-input position, or a failure carrying a human-readable
    message". *)
Inductive ParseResult : Type :=
| parse_success (expr : Expr) (end_ : nat)
| parse_failure (error_message : string).

Definition parse_is_error (r : ParseResult) : bool :=
  match r with parse_success _ _ => false | parse_failure _ => true end.

(* ===================================================================== *)
(** * The host: output streams and game entities *)
(* ===================================================================== *)

Definition nl : string := String (ascii_of_nat 10) EmptyString.
Definition tab : string := String (ascii_of_nat 9) EmptyString.

(** One call that writes to a stream: [printf]/[fprintf] with its format
    and arguments, or [print_expr_as_sexpr] with the expression it
    serializes (the serializer of script/expr.h is not among the sources;
    a stream records what it was asked to render). *)
Inductive Arg : Type :=
| arg_s (s : string)
| arg_f (x : float).

Inductive Output : Type :=
| Printf (format : string) (args : list Arg)
| Sexpr (expr : Expr).

(** [vec(x, y)]. *)
Record Vec : Type := vec { vec_x : float; vec_y : float }.

(** Modelled from the spec: the "game/physics entities scripts may
    reference" (game/level.h and game/level/player/rigid_rect.h are not
    among the sources). A rigid rectangle has a name and the force last
    applied to it; a level is the sequence of its rectangles. *)
Record Rigid_rect : Type := mkRigid_rect {
  rigid_rect_id : string;
  rigid_rect_force : Vec
}.

Definition Level : Type := list Rigid_rect.

(** The host state a script can touch: the levels in memory, by address,
    and the two output streams, oldest output first. *)
Record World : Type := mkWorld {
  levels : list (ptr * Level);
  stdout : list Output;
  stderr : list Output
}.

Definition printf (format : string) (args : list Arg) : ST World unit :=
  modify (fun w => {| levels := levels w;
                      stdout := stdout w ++ [Printf format args];
                      stderr := stderr w |}).

Definition fprintf_stderr (format : string) (args : list Arg) : ST World unit :=
  modify (fun w => {| levels := levels w;
                      stdout := stdout w;
                      stderr := stderr w ++ [Printf format args] |}).

Definition print_expr_as_sexpr (expr : Expr) : ST World unit :=
  modify (fun w => {| levels := levels w;
                      stdout := stdout w ++ [Sexpr expr];
                      stderr := stderr w |}).

Fixpoint level_at (ls : list (ptr * Level)) (level : ptr) : option Level :=
  match ls with
  | [] => None
  | (p, l) :: rest => if Nat.eqb p level then Some l else level_at rest level
  end.

Fixpoint level_store (ls : list (ptr * Level)) (level : ptr) (l' : Level)
  : list (ptr * Level) :=
  match ls with
  | [] => []
  | (p, l) :: rest =>
      if Nat.eqb p level then (p, l') :: rest
      else (p, l) :: level_store rest level l'
  end.

(** Position of the first rectangle of the level named [rect_id]. *)
Fixpoint find_rect (l : Level) (rect_id : string) : option nat :=
  match l with
  | [] => None
  | r :: rest =>
      if String.eqb (rigid_rect_id r) rect_id then Some 0
      else option_map S (find_rect rest rect_id)
  end.

Fixpoint set_force (l : Level) (i : nat) (force : Vec) : Level :=
  match l, i with
  | [], _ => []
  | r :: rest, 0 =>
      {| rigid_rect_id := rigid_rect_id r; rigid_rect_force := force |} :: rest
  | r :: rest, S j => r :: set_force rest j force
  end.

(** A [Rigid_rect *]: the level it lives in and its position there. *)
Definition Rigid_rect_ptr : Type := (ptr * nat)%type.

(** Modelled from the spec: [level_rigid_rect(level, rect_id)] looks "up a
    simulation entity by name"; the result is [None] for the C [NULL]. *)
Definition level_rigid_rect (level : ptr) (rect_id : string)
  : ST World (option Rigid_rect_ptr) :=
  ls <- gets levels ;;
  l <- access (level_at ls level) ;;
  ret (option_map (fun i => (level, i)) (find_rect l rect_id)).

(** Modelled from the spec: [rigid_rect_apply_force(rigid_rect, force)];
    "the entity's force is updated to" the given vector. *)
Definition rigid_rect_apply_force (rigid_rect : Rigid_rect_ptr) (force : Vec)
  : ST World unit :=
  let (level, i) := rigid_rect in
  ls <- gets levels ;;
  l <- access (level_at ls level) ;;
  modify (fun w => {| levels := level_store (levels w) level (set_force l i force);
                      stdout := stdout w;
                      stderr := stderr w |}).

(** The force of the rectangle named [rect_id] in the level at [level]. *)
Definition force_of (w : World) (level : ptr) (rect_id : string) : option Vec :=
  match level_at (levels w) level with
  | Some l =>
      match find_rect l rect_id with
      | Some i => option_map rigid_rect_force (nth_error l i)
      | None => None
      end
  | None => None
  end.

(* ===================================================================== *)
(** * console.c: the native callback *)
(* ===================================================================== *)

(** What a call of the runtime hands back besides its result: the heap and
    the scope it was given by address, as it leaves them. *)
Definition Returned : Type := (EvalResult * Gc * Scope)%type.

(** [static struct EvalResult rect_apply_force(void *param, Gc *gc,
    struct Scope *scope, struct Expr args)], lines 48-72.

    [gc] and [scope] are passed as the objects the C pointers designate,
    which makes [assert(gc)] and [assert(scope)] hold by construction. The
    function tests the tag of none of the values it reads. *)
Definition rect_apply_force {PF : Platform}
           (param : ptr) (gc : Gc) (scope : Scope) (args : Expr)
  : ST World Returned :=
  assert (negb (Nat.eqb param NULL)) ;;
  let level := param in
  let rect_id := atom_str (CAR args) in
  let vector_force_expr := CAR (CDR args) in
  let force_x := float_cast (atom_num (CAR vector_force_expr)) in
  let force_y := float_cast (atom_num (CDR vector_force_expr)) in
  print_expr_as_sexpr args ;;
  printf nl [] ;;
  rigid_rect <- level_rigid_rect level rect_id ;;
  match rigid_rect with
  | Some r =>
      printf ("Found rect `%s`" ++ nl) [arg_s rect_id] ;;
      printf ("Applying force (%f, %f)" ++ nl) [arg_f force_x; arg_f force_y] ;;
      rigid_rect_apply_force r (vec force_x force_y)
  | None =>
      fprintf_stderr "Couldn't find rigid_rect `%s`" [arg_s rect_id]
  end ;;
  let (nil, gc') := NIL gc in
  ret (eval_success nil, gc', scope).

(** Calling through the function pointer of a [Native] value. *)
Definition call_native {PF : Platform} (fn : NativeFunction)
  : ptr -> Gc -> Scope -> Expr -> ST World Returned :=
  match fn with
  | Rect_apply_force => rect_apply_force
  end.

(* ===================================================================== *)
(** * console.c: the interfaces it includes *)
(* ===================================================================== *)

(** [SDL_Event], as far as the console reads it: [event->type] and
    [event->key.keysym.sym]. *)
Record SDL_Event : Type := mkEvent {
  event_type : Z;
  event_key_sym : Z
}.
Definition SDL_KEYDOWN : Z := 0x300.
Definition SDLK_RETURN : Z := 13.

(** [color(r, g, b, a)]; the C literals are floats, written here with the
    exact value each of them denotes. *)
Record Color : Type := color {
  color_r : float; color_g : float; color_b : float; color_a : float
}.
Definition CONSOLE_BACKGROUND : Color :=
  color 0x1.99999ap-3 0x1.99999ap-3 0x1.99999ap-3 1.
Definition CONSOLE_FOREGROUND : Color :=
  color 0x1.99999ap-1 0x1.99999ap-1 0x1.99999ap-1 1.
Definition CONSOLE_ERROR : Color :=
  color 0x1.99999ap-1 0.5 0.5 1.

Definition FONT_WIDTH_SCALE : float := 3.
Definition FONT_HEIGHT_SCALE : float := 3.
Definition LOG_CAPACITY : nat := 10.

(** The script runtime as [console.c] calls it (script/gc.h,
    script/interpreter.h, script/parser.h, script/scope.h). A pointer
    argument the callee writes through comes back as a component of the
    result. *)
Class Runtime : Type := {
  create_gc : option Gc;
  set_scope_value : Gc -> Scope -> Expr -> Expr -> Outcome (Gc * Scope);
  read_expr_from_string : Gc -> string -> ParseResult * Gc;
  eval : Gc -> Scope -> Expr -> ST World Returned;
  gc_collect : Gc -> Expr -> Gc
}.

(** The user-interface collaborators (ui/edit_field.h, ui/log.h), the
    lifetime tracker (system/lt.h) and [malloc]. [None] and [false] stand
    for a [NULL] result. The source stores the result of [create_log]
    unchecked, so it is taken to be a log. *)
Class Toolkit : Type := {
  Sprite_font : Type;
  Edit_field : Type;
  Log : Type;
  create_lt : bool;
  malloc_console : bool;
  create_edit_field : Sprite_font -> Vec -> Color -> option Edit_field;
  create_log : Sprite_font -> Vec -> nat -> Log;
  edit_field_as_text : Edit_field -> string;
  edit_field_clean : Edit_field -> Edit_field;
  edit_field_handle_event : Edit_field -> SDL_Event -> Z * Edit_field;
  log_push_line : Log -> string -> Color -> Z * Log
}.

(** One call made by the body of [console_handle_event], with the
    arguments that matter; the handler keeps the list of its calls, in
    order, next to the state it works on. *)
Inductive Call : Type :=
| Call_read_expr_from_string (source_code : string)
| Call_eval (expr : Expr)
| Call_printf (format : string)
| Call_print_expr_as_sexpr (expr : Expr)
| Call_gc_collect (root : Expr)
| Call_log_push_line (line : string) (c : Color)
| Call_edit_field_clean
| Call_edit_field_handle_event.

(* ===================================================================== *)
(** * console.c: the console *)
(* ===================================================================== *)

Section Console.
Context {RT : Runtime} {TK : Toolkit}.

(** [struct Console], without the lifetime tracker. *)
Record Console : Type := mkConsole {
  console_gc : Gc;
  console_scope : Scope;
  console_edit_field : Edit_field;
  console_log : Log;
  console_level : ptr;
  console_a : float
}.

(** [create_console], lines 74-127. [Done None] is the [NULL] result. The
    operands of [CONS] and of [set_scope_value] are allocated left to
    right. *)
Definition create_console (level : ptr) (font : Sprite_font)
  : Outcome (option Console) :=
  if negb create_lt then Done None
  else if negb malloc_console then Done None
  else
    match create_gc with
    | None => Done None
    | Some gc0 =>
        let (nil1, gc1) := NIL gc0 in
        let (nil2, gc2) := NIL gc1 in
        let (chain, gc3) := CONS gc2 nil1 nil2 in
        let scope0 := {| scope_expr := chain |} in
        let (name, gc4) := SYMBOL gc3 "rect-apply-force" in
        let (native, gc5) := NATIVE gc4 Rect_apply_force level in
        match set_scope_value gc5 scope0 name native with
        | Stopped f => Stopped f
        | Done (gc, scope) =>
            match create_edit_field font (vec FONT_WIDTH_SCALE FONT_HEIGHT_SCALE)
                                    CONSOLE_FOREGROUND with
            | None => Done None
            | Some edit_field =>
                Done (Some {|
                  console_gc := gc;
                  console_scope := scope;
                  console_edit_field := edit_field;
                  console_log :=
                    create_log font (vec FONT_WIDTH_SCALE FONT_HEIGHT_SCALE)
                               LOG_CAPACITY;
                  console_level := level;
                  console_a := 0 |})
            end
        end
    end.

(** What one call of the handler works on: the console, the host, and the
    calls the handler has made so far. *)
Record Session : Type := mkSession {
  console : Console;
  world : World;
  calls : list Call
}.

Definition called (c : Call) (s : Session) : Session :=
  {| console := console s; world := world s; calls := calls s ++ [c] |}.

Definition with_console (c : Console) (s : Session) : Session :=
  {| console := c; world := world s; calls := calls s |}.

Definition with_runtime (gc : Gc) (scope : Scope) (c : Console) : Console :=
  {| console_gc := gc; console_scope := scope;
     console_edit_field := console_edit_field c; console_log := console_log c;
     console_level := console_level c; console_a := console_a c |}.

Definition with_edit_field (e : Edit_field) (c : Console) : Console :=
  {| console_gc := console_gc c; console_scope := console_scope c;
     console_edit_field := e; console_log := console_log c;
     console_level := console_level c; console_a := console_a c |}.

Definition with_log (l : Log) (c : Console) : Console :=
  {| console_gc := console_gc c; console_scope := console_scope c;
     console_edit_field := console_edit_field c; console_log := l;
     console_level := console_level c; console_a := console_a c |}.

(** [read_expr_from_string(console->gc, source_code)]. *)
Definition do_read (source_code : string) : ST Session ParseResult :=
  fun s =>
    let c := console s in
    let (r, gc') := read_expr_from_string (console_gc c) source_code in
    (Done r,
     called (Call_read_expr_from_string source_code)
            (with_console (with_runtime gc' (console_scope c) c) s)).

(** [eval(console->gc, &console->scope, expr)]. When the evaluation stops,
    the handler stops with it. *)
Definition do_eval (expr : Expr) : ST Session EvalResult :=
  fun s =>
    let c := console s in
    let s1 := called (Call_eval expr) s in
    match eval (console_gc c) (console_scope c) expr (world s) with
    | (Done (r, gc', scope'), w') =>
        (Done r,
         {| console := with_runtime gc' scope' c; world := w'; calls := calls s1 |})
    | (Stopped f, w') =>
        (Stopped f, {| console := c; world := w'; calls := calls s1 |})
    end.

(** [gc_collect(console->gc, root)]. *)
Definition do_gc_collect (root : Expr) : ST Session unit :=
  fun s =>
    let c := console s in
    (Done tt,
     called (Call_gc_collect root)
            (with_console (with_runtime (gc_collect (console_gc c) root)
                                        (console_scope c) c) s)).

Definition on_world (c : Call) (m : ST World unit) : ST Session unit :=
  fun s =>
    let (_, w') := m (world s) in
    (Done tt, called c {| console := console s; world := w'; calls := calls s |}).

Definition do_printf (format : string) : ST Session unit :=
  on_world (Call_printf format) (printf format []).

Definition do_print_expr_as_sexpr (expr : Expr) : ST Session unit :=
  on_world (Call_print_expr_as_sexpr expr) (print_expr_as_sexpr expr).

(** [log_push_line(console->log, line, color)]. *)
Definition do_log_push_line (line : string) (c : Color) : ST Session Z :=
  fun s =>
    let (r, log') := log_push_line (console_log (console s)) line c in
    (Done r,
     called (Call_log_push_line line c)
            (with_console (with_log log' (console s)) s)).

(** [edit_field_clean(console->edit_field)]. *)
Definition do_edit_field_clean : ST Session unit :=
  fun s =>
    (Done tt,
     called Call_edit_field_clean
            (with_console
               (with_edit_field (edit_field_clean (console_edit_field (console s)))
                                (console s)) s)).

(** [edit_field_handle_event(console->edit_field, event)]. *)
Definition do_edit_field_handle_event (event : SDL_Event) : ST Session Z :=
  fun s =>
    let (r, e') := edit_field_handle_event (console_edit_field (console s)) event in
    (Done r,
     called Call_edit_field_handle_event
            (with_console (with_edit_field e' (console s)) s)).

Definition source_text : ST Session string :=
  gets (fun s => edit_field_as_text (console_edit_field (console s))).

(** [console_handle_event], lines 135-186. *)
Definition console_handle_event (event : SDL_Event) : ST Session Z :=
  if Z.eqb (event_type event) SDL_KEYDOWN
     && Z.eqb (event_key_sym event) SDLK_RETURN
  then
    source_code <- source_text ;;
    parse_result <- do_read source_code ;;
    match parse_result with
    | parse_failure error_message =>
        r1 <- do_log_push_line source_code CONSOLE_ERROR ;;
        if Z.ltb r1 0 then ret (-1)%Z
        else
          r2 <- do_log_push_line error_message CONSOLE_ERROR ;;
          if negb (Z.eqb r2 0) then ret (-1)%Z
          else
            do_edit_field_clean ;;
            ret 0%Z
    | parse_success expr _ =>
        eval_result <- do_eval expr ;;
        (if eval_is_error eval_result then
           do_printf ("Error:" ++ tab) ;;
           do_print_expr_as_sexpr (eval_expr eval_result) ;;
           do_printf nl
         else ret tt) ;;
        root <- gets (fun s => scope_expr (console_scope (console s))) ;;
        do_gc_collect root ;;
        line <- source_text ;;
        r <- do_log_push_line line CONSOLE_FOREGROUND ;;
        if Z.ltb r 0 then ret (-1)%Z
        else
          do_edit_field_clean ;;
          ret 0%Z
    end
  else do_edit_field_handle_event event.

End Console.

(* ===================================================================== *)
(** * The script runtime *)
(* ===================================================================== *)

(** The sources of script/gc.c, script/scope.c, script/parser.c and
    script/interpreter.c are not among the files at hand; the definitions
    of this module follow sections 3 and 4 of the specification. *)
Module Script.

(** Modelled from the spec: [create_heap()] gives a "new empty heap"
    (script/gc.c is missing). Address 0 is [NULL]. *)
Definition create_gc : option Gc := Some {| live := []; fresh := 1 |}.

(** ** Scope (section 4.2) *)

(** The chain held in [scope.expr] is a pair: its head is the chain's own
    binding list, "newest binding first", each binding a pair of a symbol
    and a value; its tail is the outer chain, or nil. *)

(** Modelled from the spec: [bind(heap, scope, symbol, value)] "prepends a
    new (symbol, value) pair to the chain's own binding list without
    removing or overwriting a prior binding" (script/scope.c is missing).
    A scope that holds no pair has no binding list to prepend to. *)
Definition set_scope_value (gc : Gc) (scope : Scope) (name value : Expr)
  : Outcome (Gc * Scope) :=
  match scope_expr scope with
  | Pair _ bindings parent =>
      let (binding, gc1) := CONS gc name value in
      let (bindings', gc2) := CONS gc1 binding bindings in
      let (chain, gc3) := CONS gc2 bindings' parent in
      Done (gc3, {| scope_expr := chain |})
  | _ => Stopped InvalidAccess
  end.

(** Symbols are "compared by content". *)
Fixpoint assoc (sym : string) (bindings : Expr) : option Expr :=
  match bindings with
  | Pair _ (Pair _ (Symbol _ s) value) rest =>
      if String.eqb s sym then Some value else assoc sym rest
  | Pair _ _ rest => assoc sym rest
  | _ => None
  end.

Fixpoint lookup_chain (sym : string) (chain : Expr) : option Expr :=
  match chain with
  | Pair _ bindings parent =>
      match assoc sym bindings with
      | Some value => Some value
      | None => lookup_chain sym parent
      end
  | _ => None
  end.

(** Modelled from the spec: [lookup(scope, symbol)] is a "linear scan of
    the local binding list, then, if absent, the parent chain; returns
    unbound if exhausted at the outermost chain" (script/scope.c is
    missing). [None] is "unbound"; only a symbol can be bound. *)
Definition get_scope_value (scope : Scope) (name : Expr) : option Expr :=
  match name with
  | Symbol _ sym => lookup_chain sym (scope_expr scope)
  | _ => None
  end.

(** ** Reader (section 4.3) *)

Inductive Token : Type :=
| T_open
| T_close
| T_bare (text : string)
| T_string (text : string)
| T_unterminated.

Inductive Lexing : Type :=
| Between
| In_bare (text : string)
| In_string (text : string).

Definition is_space (c : ascii) : bool :=
  let n := nat_of_ascii c in
  Nat.eqb n 32 || Nat.eqb n 9 || Nat.eqb n 10 || Nat.eqb n 13.

Definition snoc (text : string) (c : ascii) : string :=
  text ++ String c EmptyString.

(** The bare token that ends where a delimiter starts, at position [pos]. *)
Definition flush (st : Lexing) (pos : nat) : list (Token * nat) :=
  match st with
  | In_bare text => [(T_bare text, pos)]
  | _ => []
  end.

Definition bare_so_far (st : Lexing) : string :=
  match st with
  | In_bare text => text
  | _ => EmptyString
  end.

(** "Whitespace/newline-delimited tokens; [(] opens a list, [)] closes
    it"; a text literal runs between two double quotes. Each token comes
    with the position just after it. *)
Fixpoint lex (st : Lexing) (pos : nat) (text : string) : list (Token * nat) :=
  match text with
  | EmptyString =>
      match st with
      | In_string _ => [(T_unterminated, pos)]
      | _ => flush st pos
      end
  | String c rest =>
      match st with
      | In_string lit =>
          if Nat.eqb (nat_of_ascii c) 34
          then (T_string lit, S pos) :: lex Between (S pos) rest
          else lex (In_string (snoc lit c)) (S pos) rest
      | _ =>
          if is_space c then flush st pos ++ lex Between (S pos) rest
          else if Nat.eqb (nat_of_ascii c) 40
          then flush st pos ++ (T_open, S pos) :: lex Between (S pos) rest
          else if Nat.eqb (nat_of_ascii c) 41
          then flush st pos ++ (T_close, S pos) :: lex Between (S pos) rest
          else if Nat.eqb (nat_of_ascii c) 34
          then flush st pos ++ lex (In_string EmptyString) (S pos) rest
          else lex (In_bare (snoc (bare_so_far st) c)) (S pos) rest
      end
  end.

Definition digit (c : ascii) : option float :=
  match nat_of_ascii c - 48 with
  | 0 => if Nat.eqb (nat_of_ascii c) 48 then Some 0%float else None
  | 1 => Some 1%float
  | 2 => Some 2%float
  | 3 => Some 3%float
  | 4 => Some 4%float
  | 5 => Some 5%float
  | 6 => Some 6%float
  | 7 => Some 7%float
  | 8 => Some 8%float
  | 9 => Some 9%float
  | _ => None
  end.

(** Digits with at most one decimal point, after the first digit: [acc]
    is the value of the digits read, [scale] the power of ten to divide by
    once a point was met. *)
Fixpoint scan_number (text : string) (acc : float) (scale : option float)
                     (seen : bool) : option float :=
  match text with
  | EmptyString =>
      if seen
      then Some (match scale with
                 | Some k => PrimFloat.div acc k
                 | None => acc
                 end)
      else None
  | String c rest =>
      match digit c with
      | Some d =>
          scan_number rest (PrimFloat.add (PrimFloat.mul acc 10%float) d)
                      (option_map (fun k => PrimFloat.mul k 10%float) scale) true
      | None =>
          if Nat.eqb (nat_of_ascii c) 46 && seen
          then match scale with
               | None => scan_number rest acc (Some 1%float) true
               | Some _ => None
               end
          else None
      end
  end.

(** "A bare token that parses as a floating-point literal": an optional
    minus sign and a decimal numeral. *)
Definition parse_number (text : string) : option float :=
  match text with
  | String c rest =>
      if Nat.eqb (nat_of_ascii c) 45
      then option_map PrimFloat.opp (scan_number rest 0%float None false)
      else scan_number text 0%float None false
  | EmptyString => None
  end.

(** "A bare token that parses as a floating-point literal becomes Number,
    otherwise Symbol." *)
Definition atom_of (gc : Gc) (text : string) : Expr * Gc :=
  match parse_number text with
  | Some num => NUMBER gc num
  | None => SYMBOL gc text
  end.

(** "Lists are built as right-nested Pair chains terminated by Nil":
    [items] holds the elements read, last one first. *)
Fixpoint cons_all (gc : Gc) (items : list Expr) (tail : Expr) : Expr * Gc :=
  match items with
  | [] => (tail, gc)
  | x :: rest =>
      let (cell, gc') := CONS gc x tail in cons_all gc' rest cell
  end.

(** Where a finished value goes: it is the result when no list is open,
    else one more element of the innermost open list. *)
Definition place (value : Expr) (open : list (list Expr))
  : Expr + list (list Expr) :=
  match open with
  | [] => inl value
  | items :: outer => inr ((value :: items) :: outer)
  end.

Inductive ParseError : Type :=
| Empty_input
| Unbalanced
| Unexpected_close
| Unterminated_string.

Definition message (e : ParseError) : string :=
  match e with
  | Empty_input => "Expected an expression"
  | Unbalanced => "Expected )"
  | Unexpected_close => "Unexpected )"
  | Unterminated_string => "Unclosed string"
  end.

(** [open] is the stack of the lists being read, innermost first. *)
Fixpoint parse_tokens (gc : Gc) (open : list (list Expr))
                      (tokens : list (Token * nat))
  : (ParseError + Expr * nat) * Gc :=
  match tokens with
  | [] =>
      (inl (match open with [] => Empty_input | _ => Unbalanced end), gc)
  | (T_unterminated, _) :: _ => (inl Unterminated_string, gc)
  | (T_open, _) :: rest => parse_tokens gc ([] :: open) rest
  | (T_close, pos) :: rest =>
      match open with
      | [] => (inl Unexpected_close, gc)
      | items :: outer =>
          let (nil, gc1) := NIL gc in
          let (value, gc2) := cons_all gc1 items nil in
          match place value outer with
          | inl e => (inr (e, pos), gc2)
          | inr open' => parse_tokens gc2 open' rest
          end
      end
  | (T_bare text, pos) :: rest =>
      let (value, gc1) := atom_of gc text in
      match place value open with
      | inl e => (inr (e, pos), gc1)
      | inr open' => parse_tokens gc1 open' rest
      end
  | (T_string text, pos) :: rest =>
      let (value, gc1) := STRING gc text in
      match place value open with
      | inl e => (inr (e, pos), gc1)
      | inr open' => parse_tokens gc1 open' rest
      end
  end.

(** Modelled from the spec: [read(heap, text)] of section 4.3
    (script/parser.c is missing). The reader stops after the first
    complete expression; "unbalanced parentheses, an empty input, or an
    unparseable token yield a failure ParseResult carrying a descriptive
    message". *)
Definition read_expr_from_string (gc : Gc) (source_code : string)
  : ParseResult * Gc :=
  match parse_tokens gc [] (lex Between 0 source_code) with
  | (inr (expr, end_), gc') => (parse_success expr end_, gc')
  | (inl e, gc') => (parse_failure (message e), gc')
  end.

(** ** Evaluator (section 4.4) *)

(** Modelled from the spec: [eval(heap, scope, expr)] of section 4.4
    (script/interpreter.c is missing).
    - "Self-evaluating forms: Nil, Number, String return themselves
      unchanged"; a [Native], which no reader produces and the section
      leaves open, is treated alike.
    - "Symbol: resolved via lookup; unbound symbol is a failure whose
      payload is the symbol expression itself."
    - "Pair (application form)": when the head "resolves (via lookup) to a
      Native value, the evaluator invokes the native callback with the
      unevaluated tail of the list plus the heap and current scope";
      otherwise "a failure carrying the head expression". *)
Definition eval {PF : Platform} (gc : Gc) (scope : Scope) (expr : Expr)
  : ST World Returned :=
  match expr with
  | Symbol _ _ =>
      match get_scope_value scope expr with
      | Some value => ret (eval_success value, gc, scope)
      | None => ret (eval_failure expr, gc, scope)
      end
  | Pair _ head tail =>
      match get_scope_value scope head with
      | Some (Native _ fn param) => call_native fn param gc scope tail
      | _ => ret (eval_failure head, gc, scope)
      end
  | _ => ret (eval_success expr, gc, scope)
  end.

(** ** Collector (section 4.1) *)

(** The addresses of the objects reachable from [e]. *)
Fixpoint reachable (e : Expr) : list ptr :=
  match e with
  | Pair p a d => p :: reachable a ++ reachable d
  | _ => [address e]
  end.

Definition marked (root : Expr) (p : ptr) : bool :=
  existsb (Nat.eqb p) (reachable root).

(** Modelled from the spec: [collect(heap, root)] (script/gc.c is
    missing): the mark phase "traverses transitively from root (and only
    root)"; the "sweep phase frees every unmarked allocation". *)
Definition gc_collect (gc : Gc) (root : Expr) : Gc :=
  {| live := filter (marked root) (live gc); fresh := fresh gc |}.

Definition runtime {PF : Platform} : Runtime :=
  Build_Runtime create_gc set_scope_value read_expr_from_string eval gc_collect.

End Script.

(* ===================================================================== *)
(** * A toolkit to run the console with *)
(* ===================================================================== *)

(** The simplest collaborators the console can be linked with: the edit
    field is its text, the log is the list of the lines pushed, and every
    [log_push_line] reports [status]. Key strokes other than return are
    not interpreted. The platform of the examples converts a number to
    itself, misreads a pair or an atom as that very object, a name as the
    empty text, and a number as the float [2 ^ -126]. *)
Module Plain.

Definition platform : Platform :=
  {| float_cast := fun x => x;
     car_misread := fun x => x;
     cdr_misread := fun x => x;
     str_misread := fun _ => EmptyString;
     num_misread := fun _ => 0x1p-126%float |}.

Definition toolkit (status : Z) : Toolkit :=
  {| Sprite_font := unit;
     Edit_field := string;
     Log := list (string * Color);
     create_lt := true;
     malloc_console := true;
     create_edit_field := fun _ _ _ => Some EmptyString;
     create_log := fun _ _ _ => [];
     edit_field_as_text := fun e => e;
     edit_field_clean := fun _ => EmptyString;
     edit_field_handle_event := fun e _ => (0%Z, e);
     log_push_line := fun l line c => (status, l ++ [(line, c)]) |}.

End Plain.

(* ===================================================================== *)
(** * Vocabulary of the properties *)
(* ===================================================================== *)

(** A return key press. *)
Definition is_return_key (event : SDL_Event) : Prop :=
  event_type event = SDL_KEYDOWN /\ event_key_sym event = SDLK_RETURN.

Definition is_collect (c : Call) : bool :=
  match c with Call_gc_collect _ => true | _ => false end.

Definition is_eval (c : Call) : bool :=
  match c with Call_eval _ => true | _ => false end.

(** How many times a list of calls runs the collector. *)
Definition collections (cs : list Call) : nat :=
  List.length (filter is_collect cs).

(** The expressions a call receives. *)
Definition call_exprs (c : Call) : list Expr :=
  match c with
  | Call_eval e | Call_print_expr_as_sexpr e | Call_gc_collect e => [e]
  | _ => []
  end.

(** Calls that only write to the standard output. *)
Definition is_print (c : Call) : bool :=
  match c with
  | Call_printf _ | Call_print_expr_as_sexpr _ => true
  | _ => false
  end.

(** The calls by which the handler reports an evaluation result. *)
Definition report_calls (r : EvalResult) : list Call :=
  if eval_is_error r
  then [Call_printf ("Error:" ++ tab);
        Call_print_expr_as_sexpr (eval_expr r);
        Call_printf nl]
  else [].

(** What the report of an evaluation result adds to the standard output. *)
Definition report_output (r : EvalResult) : list Output :=
  if eval_is_error r
  then [Printf ("Error:" ++ tab) []; Sexpr (eval_expr r); Printf nl []]
  else [].

(** [gc'] is [gc] after some allocations and no release: the live
    addresses of [gc] are all there, below the new ones. *)
Definition extends (gc gc' : Gc) : Prop :=
  exists new,
    live gc' = new ++ live gc
    /\ Forall (fun p => fresh gc <= p < fresh gc') new
    /\ fresh gc <= fresh gc'.

(** Every object reachable from [e] lies below address [bound]. *)
Definition below (bound : ptr) (e : Expr) : Prop :=
  Forall (fun p => p < bound) (Script.reachable e).

(** The host after [outs] were written to its standard output. *)
Definition emit (outs : list Output) (w : World) : World :=
  {| levels := levels w; stdout := stdout w ++ outs; stderr := stderr w |}.

Definition double_quote : string := String (ascii_of_nat 34) EmptyString.

(** The three lines of the scenarios of section 8. *)
Definition scenario_a : string :=
  "(rect-apply-force " ++ double_quote ++ "player" ++ double_quote ++ " (10 0))".
Definition scenario_b : string := "(unbound-name)".
Definition scenario_c : string := "(1 2".

(** A level with one rectangle, "player", at rest, stored at address 100. *)
Definition player_world : World :=
  {| levels := [(100, [{| rigid_rect_id := "player";
                          rigid_rect_force := vec 0 0 |}])];
     stdout := [];
     stderr := [] |}.

(** The console [create_console] builds over the script runtime and the
    plain toolkit whose log reports [status], holding [line] in its edit
    field; the default is never reached. *)
Definition demo_console (status : Z) (line : string)
  : @Console (Plain.toolkit status) :=
  match @create_console (@Script.runtime Plain.platform)
                        (Plain.toolkit status) 100 tt with
  | Done (Some c) => @with_edit_field (Plain.toolkit status) line c
  | _ =>
      @mkConsole (Plain.toolkit status) {| live := []; fresh := 1 |}
                 {| scope_expr := Nil 0 |} line [] 100 0
  end.

Definition demo_session (status : Z) (line : string)
  : @Session (Plain.toolkit status) :=
  {| console := demo_console status line; world := player_world; calls := [] |}.

(** The expression the reader builds for [scenario_a] in the heap of the
    console just created, whose next address is 9. *)
Definition scenario_a_expr : Expr :=
  Pair 19 (Symbol 9 "rect-apply-force")
    (Pair 18 (String_ 10 "player")
       (Pair 17 (Pair 15 (Number 11 10) (Pair 14 (Number 12 0) (Nil 13)))
          (Nil 16))).

(** The arguments of that application, and the tail of its vector
    argument [(10 0)]: the list [(0)]. *)
Definition scenario_a_tail : Expr := Pair 14 (Number 12 0) (Nil 13).

Definition scenario_a_args : Expr :=
  Pair 18 (String_ 10 "player")
    (Pair 17 (Pair 15 (Number 11 10) scenario_a_tail) (Nil 16)).

(** The same arguments for the entity [rect_id]. *)
Definition list_args (rect_id : string) : Expr :=
  Pair 18 (String_ 10 rect_id)
    (Pair 17 (Pair 15 (Number 11 10) scenario_a_tail) (Nil 16)).

(** The same call with the force given as the pair [(10 . 0)]. *)
Definition dotted_args (rect_id : string) (x y : float) : Expr :=
  Pair 14 (String_ 10 rect_id)
    (Pair 13 (Pair 12 (Number 11 x) (Number 15 y)) (Nil 16)).

(** The expression the reader builds for [scenario_b]. *)
Definition scenario_b_expr : Expr :=
  Pair 11 (Symbol 9 "unbound-name") (Nil 10).

Definition return_key : SDL_Event :=
  {| event_type := SDL_KEYDOWN; event_key_sym := SDLK_RETURN |}.

(** The session after a return key press on [scenario_c], and the same
    with a new [line] typed into the edit field. *)
Definition after_scenario_c : @Session (Plain.toolkit 0) :=
  snd (console_handle_event (RT := @Script.runtime Plain.platform) return_key
                            (demo_session 0 scenario_c)).

Definition next_line (line : string) : @Session (Plain.toolkit 0) :=
  {| console := @with_edit_field (Plain.toolkit 0) line (console after_scenario_c);
     world := world after_scenario_c;
     calls := calls after_scenario_c |}.

(* ===================================================================== *)
(** * console.c and camera.c: animation and drawing *)
(* ===================================================================== *)

(** The arithmetic of the C type [float]. A [float] value is held as the
    binary64 number equal to it; comparisons and the unary minus are exact
    and are those of [PrimFloat]. The rounding operations are those of the
    platform and are taken as given, with the two helpers of the vector
    header that [camera.c] calls: [(float) i] is [f_of_int i] and
    [(int) roundf(x)] is [f_round_to_int x], an [int] in every case: the
    source checks no range, and what the conversion gives for a value that
    fits no [int] is the platform's. *)
Class Float_ops : Type := {
  f_add : float -> float -> float;
  f_sub : float -> float -> float;
  f_mul : float -> float -> float;
  f_div : float -> float -> float;
  f_of_int : Z -> float;
  f_round_to_int : float -> Z;
  vec_entry_div : Vec -> Vec -> Vec;
  vec_scala_mult : Vec -> float -> Vec
}.

(** [SDL_Rect] and the [rect_t] built by [rect(x, y, w, h)]. *)
Record SDL_Rect : Type := mkSDL_Rect {
  sdl_x : Z; sdl_y : Z; sdl_w : Z; sdl_h : Z
}.

Record Rect : Type := rect {
  rect_x : float; rect_y : float; rect_w : float; rect_h : float
}.

(** The error kinds handed to [throw_error]. *)
Inductive Error_type : Type :=
| ERROR_TYPE_LIBC
| ERROR_TYPE_SDL2.

(** The renderer of SDL as the two files use it, and [malloc] for a
    camera ([false] for [NULL]). A drawing call returns its status and the
    renderer it leaves. *)
Class Sdl : Type := {
  SDL_Renderer : Type;
  SDL_RenderGetViewport : SDL_Renderer -> SDL_Rect;
  SDL_RenderDrawRect : SDL_Renderer -> SDL_Rect -> Z * SDL_Renderer;
  SDL_RenderFillRect : SDL_Renderer -> SDL_Rect -> Z * SDL_Renderer;
  malloc_camera : bool
}.

(** The drawing functions [console_render] calls (sdl/renderer.h,
    ui/log.h, ui/edit_field.h) and the height of a character of the
    font. *)
Class Painters {TK : Toolkit} {SDL : Sdl} : Type := {
  FONT_CHAR_HEIGHT : float;
  fill_rect : SDL_Renderer -> Rect -> Color -> Z * SDL_Renderer;
  log_render : Log -> SDL_Renderer -> Vec -> Z * SDL_Renderer;
  edit_field_render : Edit_field -> SDL_Renderer -> Vec -> Z * SDL_Renderer
}.

(** One drawing call, with the geometry it was given. *)
Inductive Draw : Type :=
| Draw_fill_rect (r : Rect) (c : Color)
| Draw_log_render (position : Vec)
| Draw_edit_field_render (position : Vec)
| Draw_SDL_RenderDrawRect (r : SDL_Rect)
| Draw_SDL_RenderFillRect (r : SDL_Rect).

Definition SLIDE_DOWN_TIME : float := 0x1.99999ap-2.

Section Drawing.
Context {FO : Float_ops} {TK : Toolkit} {SDL : Sdl} {PT : Painters}.

(** What a drawing function works on: the renderer, the drawing calls made
    so far and the errors thrown so far, oldest first. *)
Record Stage : Type := mkStage {
  renderer : SDL_Renderer;
  drawn : list Draw;
  thrown : list Error_type
}.

Definition throw_error (e : Error_type) : ST Stage unit :=
  modify (fun st => {| renderer := renderer st; drawn := drawn st;
                       thrown := thrown st ++ [e] |}).

(** A call of a drawing function on the renderer of the stage. *)
Definition draw (d : Draw) (f : SDL_Renderer -> Z * SDL_Renderer) : ST Stage Z :=
  fun st =>
    let (r, renderer') := f (renderer st) in
    (Done r, {| renderer := renderer'; drawn := drawn st ++ [d];
                thrown := thrown st |}).

(** What [console_render] leaves on the stage after [layers] drawing calls
    that left the renderer [rd]. *)
Definition rendered (st : Stage) (rd : SDL_Renderer) (layers : list Draw)
  : Stage :=
  {| renderer := rd; drawn := drawn st ++ layers; thrown := thrown st |}.

Definition PROMPT_HEIGHT : float := f_mul FONT_HEIGHT_SCALE FONT_CHAR_HEIGHT.
Definition LOG_HEIGHT : float :=
  f_mul (f_mul FONT_HEIGHT_SCALE FONT_CHAR_HEIGHT) (f_of_int (Z.of_nat LOG_CAPACITY)).
Definition CONSOLE_HEIGHT : float := f_add LOG_HEIGHT PROMPT_HEIGHT.

Definition with_a (a : float) (c : Console) : Console :=
  {| console_gc := console_gc c; console_scope := console_scope c;
     console_edit_field := console_edit_field c; console_log := console_log c;
     console_level := console_level c; console_a := a |}.

(** The vertical position of the console for the slide factor [a]. *)
Definition console_y (a : float) : float :=
  let e := f_mul a (f_sub 2 a) in
  f_mul (PrimFloat.opp (f_sub 1 e)) CONSOLE_HEIGHT.

(** [console_render], lines 188-219. *)
Definition console_render (console : Console) : ST Stage Z :=
  view_port <- gets (fun st => SDL_RenderGetViewport (renderer st)) ;;
  let y := console_y (console_a console) in
  let background := rect 0 y (f_of_int (sdl_w view_port)) CONSOLE_HEIGHT in
  r1 <- draw (Draw_fill_rect background CONSOLE_BACKGROUND)
             (fun rd => fill_rect rd background CONSOLE_BACKGROUND) ;;
  if Z.ltb r1 0 then ret (-1)%Z
  else
    r2 <- draw (Draw_log_render (vec 0 y))
               (fun rd => log_render (console_log console) rd (vec 0 y)) ;;
    if Z.ltb r2 0 then ret (-1)%Z
    else
      r3 <- draw (Draw_edit_field_render (vec 0 (f_add y LOG_HEIGHT)))
                 (fun rd => edit_field_render (console_edit_field console) rd
                                              (vec 0 (f_add y LOG_HEIGHT))) ;;
      if Z.ltb r3 0 then ret (-1)%Z
      else ret 0%Z.

(** [console_update], lines 221-236. *)
Definition console_update (console : Console) (delta_time : float)
  : Z * Console :=
  if PrimFloat.ltb (console_a console) 1
  then
    let a1 := f_add (console_a console)
                    (f_mul (f_div 1 SLIDE_DOWN_TIME) delta_time) in
    (0%Z, with_a (if PrimFloat.ltb 1 a1 then 1%float else a1) console)
  else (0%Z, console).

(** [console_slide_down], lines 238-242. *)
Definition console_slide_down (console : Console) : Console :=
  with_a 0 console.

(** The console after one [console_update] per frame time of [frames]. *)
Fixpoint console_updates (frames : list float) (console : Console) : Console :=
  match frames with
  | [] => console
  | delta_time :: rest => console_updates rest (snd (console_update console delta_time))
  end.

(** [struct camera_t]. *)
Record camera_t : Type := mkCamera {
  debug_mode : Z;
  position : Vec
}.

Definition RATIO_X : float := 16.
Definition RATIO_Y : float := 9.


(** [effective_ratio], lines 39-46. *)
Definition effective_ratio (view_port : SDL_Rect) : Vec :=
  if PrimFloat.ltb (f_div (f_of_int (sdl_h view_port)) RATIO_Y)
                   (f_div (f_of_int (sdl_w view_port)) RATIO_X)
  then vec RATIO_X
           (f_div (f_of_int (sdl_h view_port))
                  (f_div (f_of_int (sdl_w view_port)) RATIO_X))
  else vec (f_div (f_of_int (sdl_w view_port))
                  (f_div (f_of_int (sdl_h view_port)) RATIO_Y))
           RATIO_Y.

(** [effective_scale], lines 48-53. *)
Definition effective_scale (view_port : SDL_Rect) : Vec :=
  vec_entry_div
    (vec (f_of_int (sdl_w view_port)) (f_of_int (sdl_h view_port)))
    (vec_scala_mult (effective_ratio view_port) 50).

(** The [SDL_Rect] of [camera_fill_rect], lines 68-73. *)
Definition screen_rect (camera : camera_t) (view_port : SDL_Rect) (r : Rect)
  : SDL_Rect :=
  let scale := effective_scale view_port in
  {| sdl_x :=
       f_round_to_int
         (f_add (f_mul (f_sub (rect_x r) (vec_x (position camera))) (vec_x scale))
                (f_mul (f_of_int (sdl_w view_port)) 0.5));
     sdl_y :=
       f_round_to_int
         (f_add (f_mul (f_sub (rect_y r) (vec_y (position camera))) (vec_y scale))
                (f_mul (f_of_int (sdl_h view_port)) 0.5));
     sdl_w := f_round_to_int (f_mul (rect_w r) (vec_x scale));
     sdl_h := f_round_to_int (f_mul (rect_h r) (vec_y scale)) |}.

(** [camera_fill_rect], lines 55-88. *)
Definition camera_fill_rect (camera : camera_t) (r : Rect) : ST Stage Z :=
  view_port <- gets (fun st => SDL_RenderGetViewport (renderer st)) ;;
  let sdl_rect := screen_rect camera view_port r in
  if negb (Z.eqb (debug_mode camera) 0)
  then
    status <- draw (Draw_SDL_RenderDrawRect sdl_rect)
                   (fun rd => SDL_RenderDrawRect rd sdl_rect) ;;
    if Z.ltb status 0
    then throw_error ERROR_TYPE_SDL2 ;; ret (-1)%Z
    else ret 0%Z
  else
    status <- draw (Draw_SDL_RenderFillRect sdl_rect)
                   (fun rd => SDL_RenderFillRect rd sdl_rect) ;;
    if Z.ltb status 0
    then throw_error ERROR_TYPE_SDL2 ;; ret (-1)%Z
    else ret 0%Z.


(** [camera_toggle_debug_mode], lines 96-100: [!x] is 1 for 0 and 0 for
    any other [int]. *)
Definition camera_toggle_debug_mode (camera : camera_t) : camera_t :=
  {| debug_mode := if Z.eqb (debug_mode camera) 0 then 1%Z else 0%Z;
     position := position camera |}.

End Drawing.

(** Every object of the scope chain is live, and every live address is
    below the next one to hand out. *)
Definition sound (gc : Gc) (scope : Scope) : Prop :=
  Forall (fun p => p < fresh gc) (live gc)
  /\ Forall (fun p => In p (live gc)) (Script.reachable (scope_expr scope)).

(** Arithmetic and a screen to run the drawing code with: binary64
    operations in place of the binary32 ones, a renderer that is its
    viewport, and drawing calls that all report [status]. *)
Module Bench.

Fixpoint float_of_positive (p : positive) : float :=
  match p with
  | xH => 1%float
  | xO q => PrimFloat.mul 2 (float_of_positive q)
  | xI q => PrimFloat.add (PrimFloat.mul 2 (float_of_positive q)) 1
  end.

Definition float_of_Z (i : Z) : float :=
  match i with
  | Z0 => 0%float
  | Zpos p => float_of_positive p
  | Zneg p => PrimFloat.opp (float_of_positive p)
  end.

(** The largest [n] below [2 ^ bits] above [acc] with [n - 0.5 <= x], for a
    multiple [acc] of [2 ^ bits] with [acc - 0.5 <= x]: the binary digits
    of the rounding of [x], halves upwards. *)
Fixpoint round_bits (bits : nat) (acc : Z) (x : float) : Z :=
  match bits with
  | O => acc
  | S k =>
      let candidate := (acc + 2 ^ Z.of_nat k)%Z in
      if PrimFloat.leb (PrimFloat.sub (float_of_Z candidate) 0.5) x
      then round_bits k candidate x
      else round_bits k acc x
  end.

(** [(int) roundf(x)] for a 32-bit [int]: halves away from zero, and the
    least [int] when the rounded value is not an [int] or [x] is no
    number. *)
Definition round_to_int (x : float) : Z :=
  if PrimFloat.leb 0 x
  then if PrimFloat.ltb x 0x1.fffffffep+30
       then round_bits 31 0 x
       else (- 2 ^ 31)%Z
  else if PrimFloat.ltb x 0
  then if PrimFloat.ltb (PrimFloat.opp x) 0x1.00000001p+31
       then (- round_bits 32 0 (PrimFloat.opp x))%Z
       else (- 2 ^ 31)%Z
  else (- 2 ^ 31)%Z.

Definition float_ops : Float_ops :=
  {| f_add := PrimFloat.add;
     f_sub := PrimFloat.sub;
     f_mul := PrimFloat.mul;
     f_div := PrimFloat.div;
     f_of_int := float_of_Z;
     f_round_to_int := round_to_int;
     vec_entry_div := fun a b =>
       vec (PrimFloat.div (vec_x a) (vec_x b)) (PrimFloat.div (vec_y a) (vec_y b));
     vec_scala_mult := fun v k =>
       vec (PrimFloat.mul (vec_x v) k) (PrimFloat.mul (vec_y v) k) |}.

Definition sdl (status : Z) : Sdl :=
  {| SDL_Renderer := SDL_Rect;
     SDL_RenderGetViewport := fun rd => rd;
     SDL_RenderDrawRect := fun rd _ => (status, rd);
     SDL_RenderFillRect := fun rd _ => (status, rd);
     malloc_camera := true |}.

Definition painters (status : Z)
  : @Painters (Plain.toolkit 0) (sdl status) :=
  {| FONT_CHAR_HEIGHT := 7;
     fill_rect := fun rd _ _ => (status, rd);
     log_render := fun _ rd _ => (status, rd);
     edit_field_render := fun _ rd _ => (status, rd) |}.

Definition stage (status : Z) : @Stage (sdl status) :=
  @mkStage (sdl status) (mkSDL_Rect 0 0 1600 900) [] [].

End Bench.

(* ===================================================================== *)
(** * Runs of the handler *)
(* ===================================================================== *)

Section HandlerRuns.
Context {RT : Runtime} {TK : Toolkit}.

Lemma return_key_test (event : SDL_Event) :
  is_return_key event ->
  Z.eqb (event_type event) SDL_KEYDOWN
  && Z.eqb (event_key_sym event) SDLK_RETURN = true.
Proof.
  intros [Ht Hk]. rewrite Ht, Hk. reflexivity.
Qed.

(** A line that fails to parse: the three ways the handler ends. *)
Lemma failed_parse_run (event : SDL_Event) (s : Session)
      (message : string) (gc' : Gc) :
  is_return_key event ->
  read_expr_from_string (console_gc (console s))
    (edit_field_as_text (console_edit_field (console s)))
  = (parse_failure message, gc') ->
  let c := console s in
  let source_code := edit_field_as_text (console_edit_field c) in
  let c1 := with_runtime gc' (console_scope c) c in
  let p1 := log_push_line (console_log c) source_code CONSOLE_ERROR in
  let p2 := log_push_line (snd p1) message CONSOLE_ERROR in
  let called1 := calls s ++ [Call_read_expr_from_string source_code;
                             Call_log_push_line source_code CONSOLE_ERROR] in
  let called2 := called1 ++ [Call_log_push_line message CONSOLE_ERROR] in
  console_handle_event event s =
    if Z.ltb (fst p1) 0
    then (Done (-1)%Z,
          {| console := with_log (snd p1) c1; world := world s; calls := called1 |})
    else if negb (Z.eqb (fst p2) 0)
    then (Done (-1)%Z,
          {| console := with_log (snd p2) c1; world := world s; calls := called2 |})
    else (Done 0%Z,
          {| console := with_edit_field (edit_field_clean (console_edit_field c))
                                        (with_log (snd p2) c1);
             world := world s;
             calls := called2 ++ [Call_edit_field_clean] |}).
Proof.
  intros Hev Hread. cbv zeta.
  unfold console_handle_event. rewrite (return_key_test _ Hev).
  unfold bind, source_text, gets, do_read. rewrite Hread.
  unfold do_log_push_line, called, with_console; simpl.
  destruct (log_push_line (console_log (console s))
              (edit_field_as_text (console_edit_field (console s)))
              CONSOLE_ERROR) as [r1 log1] eqn:H1; simpl.
  destruct (Z.ltb r1 0).
  - unfold ret. rewrite <- ?app_assoc. reflexivity.
  - cbn.
    destruct (log_push_line log1 message CONSOLE_ERROR) as [r2 log2] eqn:H2; cbn.
    destruct (Z.eqb r2 0); cbn.
    + unfold bind, do_edit_field_clean, ret, called, with_console; simpl.
      rewrite <- ?app_assoc. reflexivity.
    + unfold ret. rewrite <- ?app_assoc. reflexivity.
Qed.

(** A line that parses and whose evaluation returns: the two ways the
    handler ends. *)
Lemma parsed_run (event : SDL_Event) (s : Session) (expr : Expr) (end_ : nat)
      (gc1 gc2 : Gc) (r : EvalResult) (scope2 : Scope) (w2 : World) :
  is_return_key event ->
  read_expr_from_string (console_gc (console s))
    (edit_field_as_text (console_edit_field (console s)))
  = (parse_success expr end_, gc1) ->
  eval gc1 (console_scope (console s)) expr (world s)
  = (Done (r, gc2, scope2), w2) ->
  let c := console s in
  let source_code := edit_field_as_text (console_edit_field c) in
  let root := scope_expr scope2 in
  let c3 := with_runtime (gc_collect gc2 root) scope2 c in
  let p := log_push_line (console_log c) source_code CONSOLE_FOREGROUND in
  let w3 := emit (report_output r) w2 in
  let called3 :=
    calls s ++ [Call_read_expr_from_string source_code; Call_eval expr]
            ++ report_calls r
            ++ [Call_gc_collect root;
                Call_log_push_line source_code CONSOLE_FOREGROUND] in
  console_handle_event event s =
    if Z.ltb (fst p) 0
    then (Done (-1)%Z,
          {| console := with_log (snd p) c3; world := w3; calls := called3 |})
    else (Done 0%Z,
          {| console := with_edit_field (edit_field_clean (console_edit_field c))
                                        (with_log (snd p) c3);
             world := w3;
             calls := called3 ++ [Call_edit_field_clean] |}).
Proof.
  intros Hev Hread Heval. cbv zeta.
  unfold console_handle_event. rewrite (return_key_test _ Hev).
  unfold bind at 1 2. unfold source_text at 1, gets at 1, do_read. rewrite Hread.
  cbn [console world calls called with_console with_runtime
       console_gc console_scope console_edit_field console_log].
  unfold bind at 1 2, do_eval.
  cbn [console world calls called with_console with_runtime
       console_gc console_scope console_edit_field console_log].
  rewrite Heval.
  unfold report_calls, report_output, emit.
  destruct (eval_is_error r); destruct w2 as [lv out err];
    unfold bind, do_printf, do_print_expr_as_sexpr, on_world, do_gc_collect,
      do_log_push_line, source_text, gets, do_edit_field_clean, ret, called,
      with_console, printf, print_expr_as_sexpr, modify; cbn;
    destruct (log_push_line (console_log (console s))
                (edit_field_as_text (console_edit_field (console s)))
                CONSOLE_FOREGROUND) as [r1 log1]; cbn;
    destruct (Z.ltb r1 0); cbn;
    rewrite <- ?app_assoc, ?app_nil_r; reflexivity.
Qed.

(** A line that parses and whose evaluation stops: the handler stops
    with it, before any collection. *)
Lemma parsed_stop (event : SDL_Event) (s : Session) (expr : Expr) (end_ : nat)
      (gc1 : Gc) (f : Fault) (w2 : World) :
  is_return_key event ->
  read_expr_from_string (console_gc (console s))
    (edit_field_as_text (console_edit_field (console s)))
  = (parse_success expr end_, gc1) ->
  eval gc1 (console_scope (console s)) expr (world s) = (Stopped f, w2) ->
  console_handle_event event s =
    (Stopped f,
     {| console := with_runtime gc1 (console_scope (console s)) (console s);
        world := w2;
        calls := calls s
                 ++ [Call_read_expr_from_string
                       (edit_field_as_text (console_edit_field (console s)));
                     Call_eval expr] |}).
Proof.
  intros Hev Hread Heval.
  unfold console_handle_event. rewrite (return_key_test _ Hev).
  unfold bind at 1 2. unfold source_text at 1, gets at 1, do_read. rewrite Hread.
  cbn [console world calls called with_console with_runtime
       console_gc console_scope console_edit_field console_log].
  unfold bind at 1 2, do_eval.
  cbn [console world calls called with_console with_runtime
       console_gc console_scope console_edit_field console_log].
  rewrite Heval. rewrite <- app_assoc. reflexivity.
Qed.

(** Any other event goes to the edit field. *)
Lemma other_event_run (event : SDL_Event) (s : Session) :
  ~ is_return_key event ->
  console_handle_event event s = do_edit_field_handle_event event s.
Proof.
  intros Hev. unfold console_handle_event.
  destruct (Z.eqb_spec (event_type event) SDL_KEYDOWN) as [Ht | Ht];
    [ destruct (Z.eqb_spec (event_key_sym event) SDLK_RETURN) as [Hk | Hk] | ];
    try reflexivity.
  exfalso. apply Hev. split; assumption.
Qed.

End HandlerRuns.

(* ===================================================================== *)
(** * The heap only grows between collections *)
(* ===================================================================== *)

Lemma extends_refl (gc : Gc) : extends gc gc.
Proof.
  exists []. repeat split; [constructor | lia].
Qed.

Lemma extends_trans (a b c : Gc) : extends a b -> extends b c -> extends a c.
Proof.
  intros (n1 & L1 & F1 & B1) (n2 & L2 & F2 & B2).
  exists (n2 ++ n1). repeat split.
  - rewrite L2, L1. apply app_assoc.
  - apply Forall_app. split.
    + eapply Forall_impl; [ | exact F2]. cbn. intros p Hp. lia.
    + eapply Forall_impl; [ | exact F1]. cbn. intros p Hp. lia.
  - lia.
Qed.

Lemma alloc_extends (gc : Gc) : extends gc (snd (alloc gc)).
Proof.
  exists [fresh gc]. cbn. repeat split; [ | lia].
  constructor; [lia | constructor].
Qed.

Lemma NIL_extends (gc : Gc) : extends gc (snd (NIL gc)).
Proof. exact (alloc_extends gc). Qed.

Lemma NUMBER_extends (gc : Gc) (num : float) : extends gc (snd (NUMBER gc num)).
Proof. exact (alloc_extends gc). Qed.

Lemma SYMBOL_extends (gc : Gc) (sym : string) : extends gc (snd (SYMBOL gc sym)).
Proof. exact (alloc_extends gc). Qed.

Lemma STRING_extends (gc : Gc) (str : string) : extends gc (snd (STRING gc str)).
Proof. exact (alloc_extends gc). Qed.

Lemma CONS_extends (gc : Gc) (a d : Expr) : extends gc (snd (CONS gc a d)).
Proof. exact (alloc_extends gc). Qed.

Lemma NATIVE_extends (gc : Gc) (fn : NativeFunction) (param : ptr) :
  extends gc (snd (NATIVE gc fn param)).
Proof. exact (alloc_extends gc). Qed.

Lemma atom_of_extends (gc : Gc) (text : string) :
  extends gc (snd (Script.atom_of gc text)).
Proof.
  unfold Script.atom_of. destruct (Script.parse_number text).
  - apply NUMBER_extends.
  - apply SYMBOL_extends.
Qed.

Lemma cons_all_extends (items : list Expr) :
  forall (gc : Gc) (tail : Expr), extends gc (snd (Script.cons_all gc items tail)).
Proof.
  induction items as [ | x rest IH]; intros gc tail; cbn.
  - apply extends_refl.
  - eapply extends_trans; [apply (CONS_extends gc x tail) | apply IH].
Qed.

Lemma parse_tokens_extends (tokens : list (Script.Token * nat)) :
  forall (gc : Gc) (open : list (list Expr)),
    extends gc (snd (Script.parse_tokens gc open tokens)).
Proof.
  induction tokens as [ | [t pos] rest IH]; intros gc open.
  - cbn. apply extends_refl.
  - destruct t; cbn.
    + apply IH.
    + destruct open as [ | items outer]; [apply extends_refl | ].
      pose proof (cons_all_extends items (snd (NIL gc)) (fst (NIL gc))) as Hc.
      cbn in Hc |- *.
      destruct (Script.cons_all _ items _) as [value gc2]; cbn in Hc.
      assert (extends gc gc2) as Hg
        by (eapply extends_trans; [apply (NIL_extends gc) | exact Hc]).
      destruct (Script.place value outer); cbn; [exact Hg | ].
      eapply extends_trans; [exact Hg | apply IH].
    + pose proof (atom_of_extends gc text) as Ha.
      destruct (Script.atom_of gc text) as [value gc1]; cbn in Ha.
      destruct (Script.place value open); cbn; [exact Ha | ].
      eapply extends_trans; [exact Ha | apply IH].
    + pose proof (STRING_extends gc text) as Ha. cbn in Ha |- *.
      destruct (Script.place _ open); cbn; [exact Ha | ].
      eapply extends_trans; [exact Ha | apply IH].
    + apply extends_refl.
Qed.

(** The reader allocates and releases nothing. *)
Lemma read_extends (gc : Gc) (source_code : string) :
  extends gc (snd (Script.read_expr_from_string gc source_code)).
Proof.
  unfold Script.read_expr_from_string.
  pose proof (parse_tokens_extends (Script.lex Script.Between 0 source_code) gc [])
    as H.
  destruct (Script.parse_tokens gc [] _) as [[e | [expr end_]] gc']; exact H.
Qed.

(* ===================================================================== *)
(** * The native callback *)
(* ===================================================================== *)

Section NativeCallback.
Context {PF : Platform}.

(** With a context pointer that is not [NULL] and designates a level, the
    callback returns on every argument list: it prints the list, looks the
    name up and applies the force or complains. *)
Lemma rect_apply_force_run (param : ptr) (gc : Gc) (scope : Scope) (args : Expr)
      (w : World) (l : Level) :
  param <> NULL ->
  level_at (levels w) param = Some l ->
  let rect_id := atom_str (CAR args) in
  let vector_force_expr := CAR (CDR args) in
  let force_x := float_cast (atom_num (CAR vector_force_expr)) in
  let force_y := float_cast (atom_num (CDR vector_force_expr)) in
  rect_apply_force param gc scope args w =
    (Done (eval_success (Nil (fresh gc)), snd (NIL gc), scope),
     match find_rect l rect_id with
     | Some i =>
         {| levels := level_store (levels w) param
                        (set_force l i (vec force_x force_y));
            stdout := stdout w
                      ++ [Sexpr args; Printf nl [];
                          Printf ("Found rect `%s`" ++ nl) [arg_s rect_id];
                          Printf ("Applying force (%f, %f)" ++ nl)
                                 [arg_f force_x; arg_f force_y]];
            stderr := stderr w |}
     | None =>
         {| levels := levels w;
            stdout := stdout w ++ [Sexpr args; Printf nl []];
            stderr := stderr w
                      ++ [Printf "Couldn't find rigid_rect `%s`" [arg_s rect_id]] |}
     end).
Proof.
  intros Hp Hl. cbv zeta.
  unfold rect_apply_force, bind, assert.
  destruct (Nat.eqb_spec param NULL) as [E | _]; [contradiction | ]. cbn.
  unfold level_rigid_rect, bind, gets; cbn. rewrite Hl; cbn.
  destruct (find_rect l (atom_str (CAR args))) as [i | ]; cbn.
  - rewrite Hl; cbn. rewrite <- ?app_assoc. reflexivity.
  - rewrite <- ?app_assoc. reflexivity.
Qed.

(** Whenever the callback returns, it returns a fresh nil as a success,
    leaves the scope alone, allocates that nil only, and has written the
    argument list it received to the standard output. *)
Lemma rect_apply_force_returned (param : ptr) (gc : Gc) (scope : Scope)
      (args : Expr) (w w' : World) (r : EvalResult) (gc' : Gc) (scope' : Scope) :
  rect_apply_force param gc scope args w = (Done (r, gc', scope'), w') ->
  r = eval_success (Nil (fresh gc))
  /\ gc' = snd (NIL gc)
  /\ scope' = scope
  /\ exists outs, stdout w' = stdout w ++ Sexpr args :: outs.
Proof.
  unfold rect_apply_force, bind, assert, access.
  destruct (negb (Nat.eqb param NULL)); cbn; [ | discriminate].
  unfold level_rigid_rect, bind, gets, access; cbn.
  destruct (level_at (levels w) param) as [l | ] eqn:Hl; cbn; [ | discriminate].
  destruct (find_rect l (atom_str (CAR args))) as [i | ]; cbn.
  - rewrite Hl; cbn. intros H. inversion H; subst; clear H. cbn.
    repeat split. eexists. rewrite <- ?app_assoc. cbn. reflexivity.
  - intros H. inversion H; subst; clear H. cbn.
    repeat split. eexists. rewrite <- ?app_assoc. cbn. reflexivity.
Qed.

End NativeCallback.

Lemma level_at_store (ls : list (ptr * Level)) (level : ptr) (l l' : Level) :
  level_at ls level = Some l ->
  level_at (level_store ls level l') level = Some l'.
Proof.
  induction ls as [ | [p l0] rest IH]; cbn; [discriminate | ].
  destruct (Nat.eqb p level) eqn:E; cbn; rewrite E.
  - reflexivity.
  - exact IH.
Qed.

Lemma find_rect_set_force (l : Level) (rect_id : string) (force : Vec) :
  forall i, find_rect (set_force l i force) rect_id = find_rect l rect_id.
Proof.
  induction l as [ | r rest IH]; intros i; cbn; [reflexivity | ].
  destruct i as [ | j]; cbn.
  - reflexivity.
  - rewrite IH. reflexivity.
Qed.

Lemma nth_error_set_force (l : Level) (rect_id : string) (force : Vec) :
  forall i, find_rect l rect_id = Some i ->
            option_map rigid_rect_force (nth_error (set_force l i force) i)
            = Some force.
Proof.
  induction l as [ | r rest IH]; intros i; cbn; [discriminate | ].
  destruct (String.eqb (rigid_rect_id r) rect_id).
  - intros H. inversion H; subst. reflexivity.
  - destruct (find_rect rest rect_id) as [j | ]; cbn; [ | discriminate].
    intros H. inversion H; subst. cbn. apply IH. reflexivity.
Qed.

(** After [rigid_rect_apply_force] on the rectangle found under a name,
    the force found under that name is the one applied. *)
Lemma force_of_applied (w : World) (level : ptr) (l : Level) (rect_id : string)
      (i : nat) (force : Vec) (out err : list Output) :
  level_at (levels w) level = Some l ->
  find_rect l rect_id = Some i ->
  force_of {| levels := level_store (levels w) level (set_force l i force);
              stdout := out; stderr := err |} level rect_id
  = Some force.
Proof.
  intros Hl Hi. unfold force_of; cbn.
  rewrite (level_at_store _ _ _ _ Hl), find_rect_set_force, Hi.
  apply (nth_error_set_force l rect_id force i Hi).
Qed.

(* ===================================================================== *)
(** * The evaluator *)
(* ===================================================================== *)

(** An application whose head is bound to a native is the call of that
    native on the tail of the form. *)
Lemma eval_application {PF : Platform}
      (gc : Gc) (scope : Scope) (p q : ptr) (head tail : Expr)
      (fn : NativeFunction) (param : ptr) :
  Script.get_scope_value scope head = Some (Native q fn param) ->
  Script.eval gc scope (Pair p head tail)
  = call_native fn param gc scope tail.
Proof.
  intros H. cbn. rewrite H. reflexivity.
Qed.

(** The evaluator returns the scope it was given and releases nothing. *)
Lemma eval_returned {PF : Platform}
      (gc : Gc) (scope : Scope) (expr : Expr) (w w' : World)
      (r : EvalResult) (gc' : Gc) (scope' : Scope) :
  Script.eval gc scope expr w = (Done (r, gc', scope'), w') ->
  scope' = scope /\ extends gc gc'.
Proof.
  destruct expr as [ p | p num | p sym | p str | p head tail | p fn param ]; cbn.
  1, 2, 4, 6: intros H; inversion H; subst; split; [reflexivity | apply extends_refl].
  - destruct (Script.lookup_chain sym (scope_expr scope));
      intros H; inversion H; subst; split;
      solve [reflexivity | apply extends_refl].
  - destruct (Script.get_scope_value scope head) as [ [ | | | | | q fn param] | ];
      try (intros H; inversion H; subst; split;
           solve [reflexivity | apply extends_refl]).
    destruct fn; cbn. intros H.
    apply rect_apply_force_returned in H as (_ & Hgc & Hs & _). subst.
    split; [reflexivity | apply NIL_extends].
Qed.

(** A failure of the evaluator carries the expression that failed: the
    unbound symbol itself, or the head of the application. *)
Lemma eval_failure_payload {PF : Platform}
      (gc : Gc) (scope : Scope) (expr : Expr) (w w' : World)
      (r : EvalResult) (gc' : Gc) (scope' : Scope) :
  Script.eval gc scope expr w = (Done (r, gc', scope'), w') ->
  eval_is_error r = true ->
  (exists p sym, expr = Symbol p sym /\ eval_expr r = expr
                 /\ Script.get_scope_value scope expr = None)
  \/ (exists p tail, expr = Pair p (eval_expr r) tail).
Proof.
  destruct expr as [ p | p num | p sym | p str | p head tail | p fn param ]; cbn.
  1, 2, 4, 6: intros H; inversion H; subst; cbn; discriminate.
  - destruct (Script.lookup_chain sym (scope_expr scope)) eqn:E;
      intros H; inversion H; subst; cbn; [discriminate | ].
    intros _. left. exists p, sym. repeat split.
  - destruct (Script.get_scope_value scope head) as [ [ | | | | | q fn param] | ];
      try (intros H; inversion H; subst; cbn; intros _; right;
           exists p, tail; reflexivity).
    destruct fn; cbn. intros H.
    apply rect_apply_force_returned in H as (Hr & _). subst. cbn. discriminate.
Qed.

(* ===================================================================== *)
(** * Properties of the native callback and of the evaluator *)
(* ===================================================================== *)

(** C1, as the code has it: the line of scenario A reads as the
    application of [rect-apply-force] to the string "player" and the list
    [(10 0)]. With the native registered in the scope, as it is in the
    scope of a console just created, and an entity named "player" in the
    level, on every platform whose conversion to [float] keeps the number
    10, [eval] returns a success; it is the call of [rect_apply_force] on
    the raw argument list, which the callback writes out as received; and
    a force is applied to the entity whose x component is 10, the first
    element of the list. The y component is not the second element: it is
    what the tail of the list, the pair [(0)], yields when read as a
    number. *)
Theorem scenario_a_reads_the_tail_for_y
        (PF : Platform) (gc : Gc) (scope : Scope) (w : World)
        (level q : ptr) (l : Level) (i : nat) :
  Script.get_scope_value scope (Symbol 9 "rect-apply-force")
  = Some (Native q Rect_apply_force level) ->
  level <> NULL ->
  level_at (levels w) level = Some l ->
  find_rect l "player" = Some i ->
  float_cast 10 = 10%float ->
  fst (Script.read_expr_from_string (console_gc (demo_console 0 scenario_a))
                                    scenario_a)
  = parse_success scenario_a_expr 34
  /\ scenario_a_expr = Pair 19 (Symbol 9 "rect-apply-force") scenario_a_args
  /\ Script.get_scope_value (console_scope (demo_console 0 scenario_a))
                            (Symbol 9 "rect-apply-force")
     = Some (Native 5 Rect_apply_force 100)
  /\ exists w',
       Script.eval gc scope scenario_a_expr w
       = (Done (eval_success (Nil (fresh gc)), snd (NIL gc), scope), w')
       /\ Script.eval gc scope scenario_a_expr w
          = rect_apply_force level gc scope scenario_a_args w
       /\ (exists outs, stdout w' = stdout w ++ Sexpr scenario_a_args :: outs)
       /\ force_of w' level "player"
          = Some (vec 10 (float_cast (num_misread scenario_a_tail))).
Proof.
  intros Hnative Hlevel Hl Hi Hten.
  split; [reflexivity | ]. split; [reflexivity | ]. split; [reflexivity | ].
  assert (Script.eval gc scope scenario_a_expr w
          = rect_apply_force level gc scope scenario_a_args w) as Hcall.
  { unfold scenario_a_expr.
    rewrite (eval_application gc scope 19 q _ _ _ _ Hnative). reflexivity. }
  pose proof (rect_apply_force_run level gc scope scenario_a_args w l
                Hlevel Hl) as Hrun.
  cbv zeta in Hrun.
  change (atom_str (CAR scenario_a_args)) with "player" in Hrun.
  rewrite Hi in Hrun.
  change (float_cast (atom_num (CAR (CAR (CDR scenario_a_args)))))
    with (float_cast 10) in Hrun.
  change (atom_num (CDR (CAR (CDR scenario_a_args))))
    with (num_misread scenario_a_tail) in Hrun.
  rewrite Hten in Hrun.
  eexists. split; [rewrite Hcall; exact Hrun | ].
  split; [exact Hcall | ].
  split; [cbn; eexists; reflexivity | ].
  apply (force_of_applied w level l "player" i _ _ _ Hl Hi).
Qed.

Lemma scenario_a_reads_the_tail_for_y_witness :
  exists w',
    Script.eval (PF := Plain.platform)
                {| live := [19; 18; 17; 16; 15; 14; 13; 12; 11; 10; 9;
                            8; 7; 6; 5; 4; 3; 2; 1];
                   fresh := 20 |}
                (console_scope (demo_console 0 scenario_a))
                scenario_a_expr player_world
    = (Done (eval_success (Nil 20),
             {| live := [20; 19; 18; 17; 16; 15; 14; 13; 12; 11; 10; 9;
                         8; 7; 6; 5; 4; 3; 2; 1];
                fresh := 21 |},
             console_scope (demo_console 0 scenario_a)), w')
    /\ force_of w' 100 "player" = Some (vec 10 0x1p-126).
Proof.
  destruct (scenario_a_reads_the_tail_for_y
              Plain.platform
              {| live := [19; 18; 17; 16; 15; 14; 13; 12; 11; 10; 9;
                          8; 7; 6; 5; 4; 3; 2; 1];
                 fresh := 20 |}
              (console_scope (demo_console 0 scenario_a))
              player_world 100 5
              [{| rigid_rect_id := "player"; rigid_rect_force := vec 0 0 |}] 0
              eq_refl (fun E => O_S 99 (eq_sym E)) eq_refl eq_refl eq_refl)
    as (_ & _ & _ & w' & Hrun & _ & _ & Hforce).
  exists w'. split; [exact Hrun | exact Hforce].
Defined.

(** C1, as the claim states it, fails: on a platform that reads the pair
    [(0)] as the number [2 ^ -126], the line of scenario A evaluates with
    success and leaves "player", at rest before, with the force
    [(10, 2 ^ -126)], which is not [(10, 0)]. *)
Lemma scenario_a_applies_another_force :
  fst (Script.read_expr_from_string (console_gc (demo_console 0 scenario_a))
                                    scenario_a)
  = parse_success scenario_a_expr 34
  /\ force_of player_world 100 "player" = Some (vec 0 0)
  /\ fst (Script.eval (PF := Plain.platform)
                      (snd (Script.read_expr_from_string
                              (console_gc (demo_console 0 scenario_a)) scenario_a))
                      (console_scope (demo_console 0 scenario_a))
                      scenario_a_expr player_world)
     = Done (eval_success (Nil 20),
             {| live := [20; 19; 18; 17; 16; 15; 14; 13; 12; 11; 10; 9;
                         8; 7; 6; 5; 4; 3; 2; 1];
                fresh := 21 |},
             console_scope (demo_console 0 scenario_a))
  /\ force_of (snd (Script.eval (PF := Plain.platform)
                       (snd (Script.read_expr_from_string
                               (console_gc (demo_console 0 scenario_a))
                               scenario_a))
                       (console_scope (demo_console 0 scenario_a))
                       scenario_a_expr player_world))
              100 "player"
     = Some (vec 10 0x1p-126)
  /\ force_of (snd (Script.eval (PF := Plain.platform)
                       (snd (Script.read_expr_from_string
                               (console_gc (demo_console 0 scenario_a))
                               scenario_a))
                       (console_scope (demo_console 0 scenario_a))
                       scenario_a_expr player_world))
              100 "player"
     <> Some (vec 10 0).
Proof.
  split; [reflexivity | ]. split; [reflexivity | ]. split; [reflexivity | ].
  split; [reflexivity | ].
  intros H.
  assert (option_map (fun v => PrimFloat.ltb 0 (vec_y v))
                     (force_of
                        (snd (Script.eval (PF := Plain.platform)
                                (snd (Script.read_expr_from_string
                                        (console_gc (demo_console 0 scenario_a))
                                        scenario_a))
                                (console_scope (demo_console 0 scenario_a))
                                scenario_a_expr player_world))
                        100 "player")
          = Some false) as F
    by (rewrite H; reflexivity).
  vm_compute in F. discriminate F.
Qed.

(** C2: for every argument list, whenever [level_rigid_rect] finds no
    entity under the name the callback read from it, [rect_apply_force]
    writes its complaint to the standard error stream, leaves the level as
    it is and returns a success carrying a fresh nil; and on no argument
    list at all does it return a failure. *)
Theorem rect_apply_force_entity_not_found
        (PF : Platform) (param : ptr) (gc : Gc) (scope : Scope) (args : Expr)
        (w : World) :
  param <> NULL ->
  level_rigid_rect param (atom_str (CAR args)) w = (Done None, w) ->
  rect_apply_force param gc scope args w
  = (Done (eval_success (Nil (fresh gc)), snd (NIL gc), scope),
     {| levels := levels w;
        stdout := stdout w ++ [Sexpr args; Printf nl []];
        stderr := stderr w
                  ++ [Printf "Couldn't find rigid_rect `%s`"
                             [arg_s (atom_str (CAR args))]] |})
  /\ forall (param' : ptr) (gc0 gc' : Gc) (scope0 scope' : Scope) (args' : Expr)
            (w0 w' : World) (r : EvalResult),
       rect_apply_force param' gc0 scope0 args' w0 = (Done (r, gc', scope'), w') ->
       eval_is_error r = false /\ exists p, eval_expr r = Nil p.
Proof.
  intros Hp Hnone. split.
  - unfold level_rigid_rect, bind, gets, access in Hnone. cbn in Hnone.
    destruct (level_at (levels w) param) as [l | ] eqn:Hl; cbn in Hnone;
      [ | discriminate].
    pose proof (rect_apply_force_run param gc scope args w l Hp Hl) as Hrun.
    cbv zeta in Hrun. rewrite Hrun.
    destruct (find_rect l (atom_str (CAR args))); cbn in Hnone;
      [discriminate | reflexivity].
  - intros param' gc0 gc' scope0 scope' args' w0 w' r H.
    apply rect_apply_force_returned in H as (Hr & _). subst r. cbn.
    split; [reflexivity | eexists; reflexivity].
Qed.

Lemma rect_apply_force_entity_not_found_witness :
  rect_apply_force (PF := Plain.platform)
                   100 {| live := []; fresh := 1 |} {| scope_expr := Nil 0 |}
                   (list_args "ghost") player_world
  = (Done (eval_success (Nil 1), {| live := [1]; fresh := 2 |},
           {| scope_expr := Nil 0 |}),
     {| levels := levels player_world;
        stdout := [Sexpr (list_args "ghost"); Printf nl []];
        stderr := [Printf "Couldn't find rigid_rect `%s`" [arg_s "ghost"]] |}).
Proof.
  apply (rect_apply_force_entity_not_found
           Plain.platform
           100 {| live := []; fresh := 1 |} {| scope_expr := Nil 0 |}
           (list_args "ghost") player_world);
    solve [reflexivity | discriminate].
Defined.

(** C8: an application form whose head resolves to a [Native] value is
    evaluated as the call of the wrapped callback on the context pointer,
    the heap, the current scope and the tail of the form exactly as it
    stands; nothing of the tail is evaluated on the way, and the callback,
    which takes the tail apart itself, writes out the very list it
    received whenever it returns. *)
Theorem native_receives_the_raw_tail
        (PF : Platform)
        (gc : Gc) (scope : Scope) (w : World) (p q : ptr) (head tail : Expr)
        (fn : NativeFunction) (param : ptr) :
  Script.get_scope_value scope head = Some (Native q fn param) ->
  Script.eval gc scope (Pair p head tail) w
  = call_native fn param gc scope tail w
  /\ call_native fn param gc scope tail w
     = rect_apply_force param gc scope tail w
  /\ forall (r : EvalResult) (gc' : Gc) (scope' : Scope) (w' : World),
       Script.eval gc scope (Pair p head tail) w = (Done (r, gc', scope'), w') ->
       exists outs, stdout w' = stdout w ++ Sexpr tail :: outs.
Proof.
  intros Hnative.
  rewrite (eval_application gc scope p q head tail fn param Hnative).
  destruct fn. cbn. repeat split.
  intros r gc' scope' w' H.
  apply rect_apply_force_returned in H as (_ & _ & _ & Hout). exact Hout.
Qed.

Lemma native_receives_the_raw_tail_witness :
  Script.eval (PF := Plain.platform)
              (console_gc (demo_console 0 "")) (console_scope (demo_console 0 ""))
              (Pair 17 (Symbol 9 "rect-apply-force") (dotted_args "player" 10 0))
              player_world
  = call_native (PF := Plain.platform) Rect_apply_force 100
                (console_gc (demo_console 0 "")) (console_scope (demo_console 0 ""))
                (dotted_args "player" 10 0) player_world.
Proof.
  apply (native_receives_the_raw_tail
           Plain.platform
           (console_gc (demo_console 0 "")) (console_scope (demo_console 0 ""))
           player_world 17 5 (Symbol 9 "rect-apply-force")
           (dotted_args "player" 10 0) Rect_apply_force 100).
  reflexivity.
Defined.

(** C3: a failure of the evaluator carries an expression, the one that
    failed: an unbound symbol itself, or the head of an application that
    cannot be called. Reading and evaluating [(unbound-name)] in the console
    fails with the symbol [unbound-name] as payload. The handler reports a
    failure by handing that payload to [print_expr_as_sexpr], between the
    texts "Error:<tab>" and a newline. *)
Theorem eval_failure_carries_the_expression :
  (forall (PF : Platform)
          (gc gc' : Gc) (scope scope' : Scope) (expr : Expr) (w w' : World)
          (r : EvalResult),
      Script.eval gc scope expr w = (Done (r, gc', scope'), w') ->
      eval_is_error r = true ->
      (exists p sym, expr = Symbol p sym /\ eval_expr r = expr
                     /\ Script.get_scope_value scope expr = None)
      \/ (exists p tail, expr = Pair p (eval_expr r) tail))
  /\ (forall PF : Platform,
      fst (Script.read_expr_from_string
             (console_gc (demo_console 0 scenario_b)) scenario_b)
      = parse_success scenario_b_expr 14
      /\ Script.eval
           (snd (Script.read_expr_from_string
                   (console_gc (demo_console 0 scenario_b)) scenario_b))
           (console_scope (demo_console 0 scenario_b))
           scenario_b_expr player_world
         = (Done (eval_failure (Symbol 9 "unbound-name"),
                  snd (Script.read_expr_from_string
                         (console_gc (demo_console 0 scenario_b)) scenario_b),
                  console_scope (demo_console 0 scenario_b)),
            player_world))
  /\ (forall (RT : Runtime) (TK : Toolkit) (event : SDL_Event) (s : Session)
             (expr : Expr) (end_ : nat) (gc1 gc2 : Gc) (r : EvalResult)
             (scope2 : Scope) (w2 : World),
         is_return_key event ->
         read_expr_from_string (console_gc (console s))
           (edit_field_as_text (console_edit_field (console s)))
         = (parse_success expr end_, gc1) ->
         eval gc1 (console_scope (console s)) expr (world s)
         = (Done (r, gc2, scope2), w2) ->
         eval_is_error r = true ->
         let s' := snd (console_handle_event event s) in
         In (Call_print_expr_as_sexpr (eval_expr r)) (calls s')
         /\ stdout (world s')
            = stdout w2 ++ [Printf ("Error:" ++ tab) []; Sexpr (eval_expr r);
                            Printf nl []]).
Proof.
  split; [ | split].
  - intros PF gc gc' scope scope' expr w w' r H E.
    exact (eval_failure_payload gc scope expr w w' r gc' scope' H E).
  - intros PF. split; reflexivity.
  - intros RT TK event s expr end_ gc1 gc2 r scope2 w2 Hev Hread Heval E s'.
    subst s'.
    rewrite (parsed_run event s expr end_ gc1 gc2 r scope2 w2 Hev Hread Heval).
    unfold report_calls, report_output, emit. rewrite E.
    destruct (Z.ltb _ 0); cbn [snd calls world stdout]; split;
      try reflexivity;
      rewrite ?in_app_iff; cbn; tauto.
Qed.

Lemma eval_failure_carries_the_expression_witness :
  ((exists p sym, scenario_b_expr = Symbol p sym
                  /\ eval_expr (eval_failure (Symbol 9 "unbound-name"))
                     = scenario_b_expr
                  /\ Script.get_scope_value (console_scope (demo_console 0 scenario_b))
                                            scenario_b_expr = None)
   \/ (exists p tail,
          scenario_b_expr
          = Pair p (eval_expr (eval_failure (Symbol 9 "unbound-name"))) tail))
  /\ In (Call_print_expr_as_sexpr (Symbol 9 "unbound-name"))
        (calls (snd (console_handle_event (RT := @Script.runtime Plain.platform) return_key
                                          (demo_session 0 scenario_b)))).
Proof.
  split.
  - apply (proj1 eval_failure_carries_the_expression
             Plain.platform
             {| live := [11; 10; 9; 8; 7; 6; 5; 4; 3; 2; 1]; fresh := 12 |}
             {| live := [11; 10; 9; 8; 7; 6; 5; 4; 3; 2; 1]; fresh := 12 |}
             (console_scope (demo_console 0 scenario_b))
             (console_scope (demo_console 0 scenario_b))
             scenario_b_expr player_world player_world
             (eval_failure (Symbol 9 "unbound-name")));
      reflexivity.
  - apply (proj2 (proj2 eval_failure_carries_the_expression)
             (@Script.runtime Plain.platform) (Plain.toolkit 0) return_key
             (demo_session 0 scenario_b) scenario_b_expr 14
             {| live := [11; 10; 9; 8; 7; 6; 5; 4; 3; 2; 1]; fresh := 12 |}
             {| live := [11; 10; 9; 8; 7; 6; 5; 4; 3; 2; 1]; fresh := 12 |}
             (eval_failure (Symbol 9 "unbound-name"))
             (console_scope (demo_console 0 scenario_b)) player_world);
      solve [reflexivity | split; reflexivity].
Defined.

(* ===================================================================== *)
(** * Properties of the event handler *)
(* ===================================================================== *)

(** Every message of the reader is a text of at least one character. *)
Lemma read_failure_message (gc : Gc) (source_code : string) :
  parse_is_error (fst (Script.read_expr_from_string gc source_code)) = true ->
  exists error_message,
    fst (Script.read_expr_from_string gc source_code) = parse_failure error_message
    /\ error_message <> EmptyString.
Proof.
  unfold Script.read_expr_from_string.
  destruct (Script.parse_tokens gc [] _) as [[e | [expr end_]] gc']; cbn.
  - intros _. exists (Script.message e). split; [reflexivity | ].
    destruct e; discriminate.
  - discriminate.
Qed.

(** C4, as the code has it: a line that fails to parse (such as the
    unbalanced [(1 2]) gives a [ParseResult] with a message of at least one
    character and no expression. The handler then pushes the source line
    to the log, and the message after it, both in the error colour. When
    the first push reports no negative status and the second reports 0,
    it cleans the edit field and returns 0. When a push reports otherwise,
    it returns -1 right there, the edit field still holding the line. In no
    case is anything evaluated. *)
Theorem failed_parse_is_logged :
  (forall (gc : Gc) (source_code : string),
      parse_is_error (fst (Script.read_expr_from_string gc source_code)) = true ->
      exists error_message,
        fst (Script.read_expr_from_string gc source_code)
        = parse_failure error_message
        /\ error_message <> EmptyString)
  /\ (forall gc : Gc,
         fst (Script.read_expr_from_string gc scenario_c)
         = parse_failure "Expected )")
  /\ (forall (RT : Runtime) (TK : Toolkit) (event : SDL_Event) (s : Session)
             (error_message : string) (gc' : Gc),
         is_return_key event ->
         read_expr_from_string (console_gc (console s))
           (edit_field_as_text (console_edit_field (console s)))
         = (parse_failure error_message, gc') ->
         let source_code := edit_field_as_text (console_edit_field (console s)) in
         let p1 := log_push_line (console_log (console s)) source_code
                                 CONSOLE_ERROR in
         let p2 := log_push_line (snd p1) error_message CONSOLE_ERROR in
         let result := console_handle_event event s in
         let pushed1 := [Call_read_expr_from_string source_code;
                         Call_log_push_line source_code CONSOLE_ERROR] in
         let pushed2 := pushed1 ++ [Call_log_push_line error_message CONSOLE_ERROR] in
         ((0 <= fst p1)%Z -> fst p2 = 0%Z ->
          fst result = Done 0%Z
          /\ calls (snd result) = calls s ++ pushed2 ++ [Call_edit_field_clean]
          /\ console_log (console (snd result)) = snd p2
          /\ console_edit_field (console (snd result))
             = edit_field_clean (console_edit_field (console s)))
         /\ ((fst p1 < 0)%Z ->
             fst result = Done (-1)%Z
             /\ calls (snd result) = calls s ++ pushed1
             /\ console_edit_field (console (snd result))
                = console_edit_field (console s))
         /\ ((0 <= fst p1)%Z -> fst p2 <> 0%Z ->
             fst result = Done (-1)%Z
             /\ calls (snd result) = calls s ++ pushed2
             /\ console_edit_field (console (snd result))
                = console_edit_field (console s))).
Proof.
  split; [exact read_failure_message | ].
  split; [intros gc; reflexivity | ].
  intros RT TK event s error_message gc' Hev Hread.
  pose proof (failed_parse_run event s error_message gc' Hev Hread) as Hrun.
  cbv zeta in Hrun |- *. rewrite Hrun. clear Hrun.
  destruct (log_push_line (console_log (console s)) _ CONSOLE_ERROR)
    as [r1 log1]; cbn [fst snd].
  destruct (log_push_line log1 error_message CONSOLE_ERROR)
    as [r2 log2]; cbn [fst snd].
  destruct (Z.ltb_spec r1 0) as [Hneg | Hpos];
    [ | destruct (Z.eqb_spec r2 0) as [Hz | Hnz]];
    cbn [negb fst snd calls console console_log console_edit_field
         with_log with_edit_field with_runtime];
    repeat split; intros; try lia; try contradiction;
    rewrite <- ?app_assoc; reflexivity.
Qed.

Lemma failed_parse_is_logged_witness :
  fst (console_handle_event (RT := @Script.runtime Plain.platform) return_key
                            (demo_session 0 scenario_c))
  = Done 0%Z
  /\ calls (snd (console_handle_event (RT := @Script.runtime Plain.platform) return_key
                                      (demo_session 0 scenario_c)))
     = [Call_read_expr_from_string scenario_c;
        Call_log_push_line scenario_c CONSOLE_ERROR;
        Call_log_push_line "Expected )" CONSOLE_ERROR;
        Call_edit_field_clean]
  /\ console_edit_field
       (console (snd (console_handle_event (RT := @Script.runtime Plain.platform) return_key
                                           (demo_session 0 scenario_c))))
     = EmptyString.
Proof.
  destruct (proj1 (proj2 (proj2 failed_parse_is_logged)
                     (@Script.runtime Plain.platform) (Plain.toolkit 0) return_key
                     (demo_session 0 scenario_c) "Expected )"
                     {| live := [10; 9; 8; 7; 6; 5; 4; 3; 2; 1]; fresh := 11 |}
                     (conj eq_refl eq_refl) eq_refl))
    as (Hcode & Hcalls & _ & Hfield).
  - cbn. lia.
  - reflexivity.
  - split; [exact Hcode | split; [exact Hcalls | exact Hfield]].
Defined.

(** C4, as the claim states it, fails: with a log whose [log_push_line]
    reports -1, the handler returns -1 on the line [(1 2], after the first
    push, and the edit field still holds the line. *)
Lemma failed_push_ends_the_handler :
  parse_is_error
    (fst (Script.read_expr_from_string
            (console_gc (demo_console (-1) scenario_c)) scenario_c)) = true
  /\ fst (console_handle_event (RT := @Script.runtime Plain.platform) return_key
                               (demo_session (-1) scenario_c))
     = Done (-1)%Z
  /\ calls (snd (console_handle_event (RT := @Script.runtime Plain.platform) return_key
                                      (demo_session (-1) scenario_c)))
     = [Call_read_expr_from_string scenario_c;
        Call_log_push_line scenario_c CONSOLE_ERROR]
  /\ console_edit_field
       (console (snd (console_handle_event (RT := @Script.runtime Plain.platform) return_key
                                           (demo_session (-1) scenario_c))))
     = scenario_c.
Proof.
  repeat split; reflexivity.
Qed.

Lemma collections_app (a b : list Call) :
  collections (a ++ b) = collections a + collections b.
Proof.
  unfold collections. rewrite filter_app, length_app. reflexivity.
Qed.

Lemma report_calls_print (r : EvalResult) :
  forallb is_print (report_calls r) = true.
Proof.
  unfold report_calls. destruct (eval_is_error r); reflexivity.
Qed.

Lemma report_calls_no_collection (r : EvalResult) :
  collections (report_calls r) = 0.
Proof.
  unfold report_calls. destruct (eval_is_error r); reflexivity.
Qed.

(** C5: the collector runs only where the embedder calls it. A return key
    press whose line parses and whose evaluation returns, with or without
    an error, makes the handler call [gc_collect] exactly once, after the
    call of [eval], on the heap [eval] left and with the expression of the
    scope chain as [eval] left it for root. A line that fails to parse, an
    evaluation that stops and any other event make it call [gc_collect]
    not at all. In the runtime itself, an allocation, a read and an
    evaluation release nothing: every live address stays live. *)
Theorem collection_is_explicit :
  (forall (RT : Runtime) (TK : Toolkit) (event : SDL_Event) (s : Session)
          (expr : Expr) (end_ : nat) (gc1 gc2 : Gc) (r : EvalResult)
          (scope2 : Scope) (w2 : World),
      is_return_key event ->
      read_expr_from_string (console_gc (console s))
        (edit_field_as_text (console_edit_field (console s)))
      = (parse_success expr end_, gc1) ->
      eval gc1 (console_scope (console s)) expr (world s)
      = (Done (r, gc2, scope2), w2) ->
      let s' := snd (console_handle_event event s) in
      collections (calls s') = collections (calls s) + 1
      /\ (exists before after,
             calls s' = calls s ++ before
                                ++ Call_gc_collect (scope_expr scope2) :: after
             /\ In (Call_eval expr) before
             /\ collections before = 0
             /\ collections after = 0)
      /\ console_gc (console s') = gc_collect gc2 (scope_expr scope2)
      /\ console_scope (console s') = scope2)
  /\ (forall (RT : Runtime) (TK : Toolkit) (event : SDL_Event) (s : Session),
         (~ is_return_key event
          \/ (is_return_key event
              /\ parse_is_error
                   (fst (read_expr_from_string (console_gc (console s))
                           (edit_field_as_text (console_edit_field (console s)))))
                 = true)
          \/ (is_return_key event
              /\ exists expr end_ gc1 f w2,
                   read_expr_from_string (console_gc (console s))
                     (edit_field_as_text (console_edit_field (console s)))
                   = (parse_success expr end_, gc1)
                   /\ eval gc1 (console_scope (console s)) expr (world s)
                      = (Stopped f, w2))) ->
         collections (calls (snd (console_handle_event event s)))
         = collections (calls s))
  /\ (forall gc : Gc, extends gc (snd (alloc gc)))
  /\ (forall (gc : Gc) (source_code : string),
         extends gc (snd (Script.read_expr_from_string gc source_code)))
  /\ (forall (PF : Platform)
             (gc gc' : Gc) (scope scope' : Scope) (expr : Expr) (w w' : World)
             (r : EvalResult),
         Script.eval gc scope expr w = (Done (r, gc', scope'), w') ->
         extends gc gc').
Proof.
  split; [ | split; [ | split; [ | split]]].
  - intros RT TK event s expr end_ gc1 gc2 r scope2 w2 Hev Hread Heval s'.
    subst s'.
    rewrite (parsed_run event s expr end_ gc1 gc2 r scope2 w2 Hev Hread Heval).
    destruct (Z.ltb _ 0);
      cbn [snd calls console console_gc console_scope
           with_log with_edit_field with_runtime];
      (split; [ | split; [ | split; reflexivity]]).
    + rewrite !collections_app, report_calls_no_collection. cbn. lia.
    + eexists (_ :: _ :: report_calls r), [_]. repeat split.
      * right; left; reflexivity.
      * change (collections (report_calls r) = 0).
        apply report_calls_no_collection.
    + rewrite !collections_app, report_calls_no_collection. cbn. lia.
    + eexists (_ :: _ :: report_calls r), [_; _]. repeat split.
      * rewrite <- !app_assoc. reflexivity.
      * right; left; reflexivity.
      * change (collections (report_calls r) = 0).
        apply report_calls_no_collection.
      * reflexivity.
  - intros RT TK event s [Hother | [[Hev Herr] | [Hev Hstop]]].
    + rewrite (other_event_run event s Hother).
      unfold do_edit_field_handle_event.
      destruct (edit_field_handle_event _ event) as [code e'].
      unfold called, with_console. cbn [snd calls].
      rewrite collections_app. cbn. lia.
    + destruct (read_expr_from_string (console_gc (console s)) _)
        as [[expr end_ | error_message] gc'] eqn:Hread;
        cbn in Herr; [discriminate | ].
      pose proof (failed_parse_run event s error_message gc' Hev Hread) as Hrun.
      cbv zeta in Hrun. rewrite Hrun.
      destruct (Z.ltb _ 0); [ | destruct (negb _)];
        cbn [snd calls]; rewrite !collections_app; cbn; lia.
    + destruct Hstop as (expr & end_ & gc1 & f & w2 & Hread & Heval).
      rewrite (parsed_stop event s expr end_ gc1 f w2 Hev Hread Heval).
      cbn [snd calls]. rewrite collections_app. cbn. lia.
  - exact alloc_extends.
  - exact read_extends.
  - intros PF gc gc' scope scope' expr w w' r H.
    exact (proj2 (eval_returned gc scope expr w w' r gc' scope' H)).
Qed.

Lemma collection_is_explicit_witness :
  collections
    (calls (snd (console_handle_event (RT := @Script.runtime Plain.platform) return_key
                                      (demo_session 0 scenario_b))))
  = 1
  /\ console_gc
       (console (snd (console_handle_event (RT := @Script.runtime Plain.platform) return_key
                                           (demo_session 0 scenario_b))))
     = Script.gc_collect
         {| live := [11; 10; 9; 8; 7; 6; 5; 4; 3; 2; 1]; fresh := 12 |}
         (scope_expr (console_scope (demo_console 0 scenario_b))).
Proof.
  destruct (proj1 collection_is_explicit
              (@Script.runtime Plain.platform) (Plain.toolkit 0) return_key
              (demo_session 0 scenario_b) scenario_b_expr 14
              {| live := [11; 10; 9; 8; 7; 6; 5; 4; 3; 2; 1]; fresh := 12 |}
              {| live := [11; 10; 9; 8; 7; 6; 5; 4; 3; 2; 1]; fresh := 12 |}
              (eval_failure (Symbol 9 "unbound-name"))
              (console_scope (demo_console 0 scenario_b)) player_world
              (conj eq_refl eq_refl) eq_refl eq_refl)
    as (Hcount & _ & Hgc & _).
  split; [exact Hcount | exact Hgc].
Defined.

(** C6, as the code has it: on a return key press whose line parses and
    whose evaluation returns, the handler runs to its end within that one
    call and calls [read_expr_from_string], then [eval], then
    [gc_collect], in that order, with nothing between [eval] and
    [gc_collect] but the printing of an error payload, and nothing after
    but the log push and the cleaning of the edit field. A line that fails
    to parse gets the read alone: neither [eval] nor [gc_collect] follows.
    An evaluation that stops stops the handler there. *)
Theorem read_eval_collect_in_order :
  (forall (RT : Runtime) (TK : Toolkit) (event : SDL_Event) (s : Session)
          (expr : Expr) (end_ : nat) (gc1 gc2 : Gc) (r : EvalResult)
          (scope2 : Scope) (w2 : World),
      is_return_key event ->
      read_expr_from_string (console_gc (console s))
        (edit_field_as_text (console_edit_field (console s)))
      = (parse_success expr end_, gc1) ->
      eval gc1 (console_scope (console s)) expr (world s)
      = (Done (r, gc2, scope2), w2) ->
      let source_code := edit_field_as_text (console_edit_field (console s)) in
      let push := Call_log_push_line source_code CONSOLE_FOREGROUND in
      exists code tail,
        fst (console_handle_event event s) = Done code
        /\ calls (snd (console_handle_event event s))
           = calls s
             ++ Call_read_expr_from_string source_code
                :: Call_eval expr
                :: report_calls r
                ++ Call_gc_collect (scope_expr scope2) :: tail
        /\ forallb is_print (report_calls r) = true
        /\ (tail = [push] \/ tail = [push; Call_edit_field_clean]))
  /\ (forall (RT : Runtime) (TK : Toolkit) (event : SDL_Event) (s : Session)
             (error_message : string) (gc' : Gc),
         is_return_key event ->
         read_expr_from_string (console_gc (console s))
           (edit_field_as_text (console_edit_field (console s)))
         = (parse_failure error_message, gc') ->
         exists code tail,
           fst (console_handle_event event s) = Done code
           /\ calls (snd (console_handle_event event s))
              = calls s
                ++ Call_read_expr_from_string
                     (edit_field_as_text (console_edit_field (console s)))
                   :: tail
           /\ filter is_eval tail = []
           /\ filter is_collect tail = [])
  /\ (forall (RT : Runtime) (TK : Toolkit) (event : SDL_Event) (s : Session)
             (expr : Expr) (end_ : nat) (gc1 : Gc) (f : Fault) (w2 : World),
         is_return_key event ->
         read_expr_from_string (console_gc (console s))
           (edit_field_as_text (console_edit_field (console s)))
         = (parse_success expr end_, gc1) ->
         eval gc1 (console_scope (console s)) expr (world s) = (Stopped f, w2) ->
         fst (console_handle_event event s) = Stopped f
         /\ calls (snd (console_handle_event event s))
            = calls s
              ++ [Call_read_expr_from_string
                    (edit_field_as_text (console_edit_field (console s)));
                  Call_eval expr]).
Proof.
  split; [ | split].
  - intros RT TK event s expr end_ gc1 gc2 r scope2 w2 Hev Hread Heval
           source_code push.
    subst source_code push.
    rewrite (parsed_run event s expr end_ gc1 gc2 r scope2 w2 Hev Hread Heval).
    destruct (Z.ltb _ 0); cbn [fst snd calls].
    + exists (-1)%Z, [Call_log_push_line
                        (edit_field_as_text (console_edit_field (console s)))
                        CONSOLE_FOREGROUND].
      repeat split; [apply report_calls_print | left; reflexivity].
    + exists 0%Z, [Call_log_push_line
                     (edit_field_as_text (console_edit_field (console s)))
                     CONSOLE_FOREGROUND; Call_edit_field_clean].
      repeat split;
        [rewrite <- !app_assoc; reflexivity
        | apply report_calls_print | right; reflexivity].
  - intros RT TK event s error_message gc' Hev Hread.
    pose proof (failed_parse_run event s error_message gc' Hev Hread) as Hrun.
    cbv zeta in Hrun. rewrite Hrun.
    destruct (Z.ltb _ 0); [ | destruct (negb _)]; cbn [fst snd calls];
      eexists; eexists; (split; [reflexivity | ]);
      (split; [rewrite <- ?app_assoc; cbn; reflexivity | ]);
      split; reflexivity.
  - intros RT TK event s expr end_ gc1 f w2 Hev Hread Heval.
    rewrite (parsed_stop event s expr end_ gc1 f w2 Hev Hread Heval).
    split; reflexivity.
Qed.

Lemma read_eval_collect_in_order_witness :
  exists code tail,
    fst (console_handle_event (RT := @Script.runtime Plain.platform) return_key
                              (demo_session 0 scenario_b))
    = Done code
    /\ calls (snd (console_handle_event (RT := @Script.runtime Plain.platform) return_key
                                        (demo_session 0 scenario_b)))
       = Call_read_expr_from_string scenario_b
         :: Call_eval scenario_b_expr
         :: report_calls (eval_failure (Symbol 9 "unbound-name"))
         ++ Call_gc_collect (scope_expr (console_scope (demo_console 0 scenario_b)))
            :: tail.
Proof.
  destruct (proj1 read_eval_collect_in_order
              (@Script.runtime Plain.platform) (Plain.toolkit 0) return_key
              (demo_session 0 scenario_b) scenario_b_expr 14
              {| live := [11; 10; 9; 8; 7; 6; 5; 4; 3; 2; 1]; fresh := 12 |}
              {| live := [11; 10; 9; 8; 7; 6; 5; 4; 3; 2; 1]; fresh := 12 |}
              (eval_failure (Symbol 9 "unbound-name"))
              (console_scope (demo_console 0 scenario_b)) player_world
              (conj eq_refl eq_refl) eq_refl eq_refl)
    as (code & tail & Hcode & Hcalls & _).
  exists code, tail. split; [exact Hcode | exact Hcalls].
Defined.

(** C6, as the claim states it, fails: the return key press on the line
    [(1 2] is handled to the end, with result 0, and the handler calls
    neither [eval] nor [gc_collect]. *)
Lemma unparsed_line_is_not_evaluated :
  is_return_key return_key
  /\ fst (console_handle_event (RT := @Script.runtime Plain.platform) return_key
                               (demo_session 0 scenario_c))
     = Done 0%Z
  /\ filter is_eval
       (calls (snd (console_handle_event (RT := @Script.runtime Plain.platform) return_key
                                         (demo_session 0 scenario_c))))
     = []
  /\ collections
       (calls (snd (console_handle_event (RT := @Script.runtime Plain.platform) return_key
                                         (demo_session 0 scenario_c))))
     = 0.
Proof.
  repeat split; reflexivity.
Qed.

(** What survives a collection was live and is reachable from the root. *)
Lemma collected_is_reachable (gc : Gc) (root : Expr) (p : ptr) :
  In p (live (Script.gc_collect gc root)) ->
  In p (Script.reachable root) /\ In p (live gc).
Proof.
  cbn. rewrite filter_In. intros [Hlive Hmark]. split; [ | exact Hlive].
  unfold Script.marked in Hmark. apply existsb_exists in Hmark.
  destruct Hmark as (q & Hq & E). apply Nat.eqb_eq in E. subst. exact Hq.
Qed.

(** With every object of the scope chain below [bound], a round that
    parses and evaluates leaves no address from [bound] on live. *)
Lemma round_releases_the_unreachable
      {PF : Platform} {TK : Toolkit}
      (event : SDL_Event) (t : Session) (bound : ptr)
      (expr : Expr) (end_ : nat) (gc1 gc2 : Gc) (r : EvalResult)
      (scope2 : Scope) (w2 : World) :
  is_return_key event ->
  Script.read_expr_from_string (console_gc (console t))
    (edit_field_as_text (console_edit_field (console t)))
  = (parse_success expr end_, gc1) ->
  Script.eval gc1 (console_scope (console t)) expr (world t)
  = (Done (r, gc2, scope2), w2) ->
  below bound (scope_expr (console_scope (console t))) ->
  forall p, bound <= p ->
    ~ In p (live (console_gc
                    (console (snd (console_handle_event (RT := Script.runtime)
                                                        event t))))).
Proof.
  intros Hev Hread Heval Hbelow p Hp Hin.
  destruct (eval_returned _ _ _ _ _ _ _ _ Heval) as [Hscope _]. subst scope2.
  rewrite (parsed_run (RT := Script.runtime) event t expr end_ gc1 gc2 r
             (console_scope (console t)) w2 Hev Hread Heval) in Hin.
  destruct (Z.ltb _ 0);
    cbn [snd console console_gc with_log with_edit_field with_runtime] in Hin;
    apply collected_is_reachable in Hin as [Hreach _];
    unfold below in Hbelow; rewrite Forall_forall in Hbelow;
    specialize (Hbelow p Hreach); lia.
Qed.

(** What a return key press on a line that fails to parse leaves behind. *)
Lemma failed_parse_effects (RT : Runtime) (TK : Toolkit) (event : SDL_Event)
      (s : Session) (error_message : string) (gc' : Gc) :
  is_return_key event ->
  read_expr_from_string (console_gc (console s))
    (edit_field_as_text (console_edit_field (console s)))
  = (parse_failure error_message, gc') ->
  let s' := snd (console_handle_event event s) in
  (exists tail,
      calls s' = calls s
                 ++ Call_read_expr_from_string
                      (edit_field_as_text (console_edit_field (console s)))
                    :: tail
      /\ filter is_eval tail = []
      /\ filter is_collect tail = [])
  /\ console_gc (console s') = gc'
  /\ console_scope (console s') = console_scope (console s)
  /\ world s' = world s.
Proof.
  intros Hev Hread s'. subst s'.
  pose proof (failed_parse_run event s error_message gc' Hev Hread) as Hrun.
  cbv zeta in Hrun. rewrite Hrun.
  destruct (Z.ltb _ 0); [ | destruct (negb _)];
    cbn [snd calls console world console_gc console_scope
         with_log with_edit_field with_runtime];
    (split; [eexists; split; [rewrite <- ?app_assoc; cbn; reflexivity | ];
             split; reflexivity | ]);
    repeat split.
Qed.

(** C9: a return key press on a line that fails to parse makes the
    handler call the reader and then only the log and the edit field:
    neither [eval] nor [gc_collect]. The heap of the console is the heap
    as the reader left it, the scope and the host are as before. With the
    runtime of the specification, every address that was live or was
    allocated by the failed read is therefore still live after the event;
    and once a later line parses and evaluates, the collection of that
    round releases every address the failed read had allocated, the scope
    chain reaching none of them. *)
Theorem failed_parse_skips_eval_and_collection :
  (forall (RT : Runtime) (TK : Toolkit) (event : SDL_Event) (s : Session)
          (error_message : string) (gc' : Gc),
      is_return_key event ->
      read_expr_from_string (console_gc (console s))
        (edit_field_as_text (console_edit_field (console s)))
      = (parse_failure error_message, gc') ->
      let s' := snd (console_handle_event event s) in
      (exists tail,
          calls s' = calls s
                     ++ Call_read_expr_from_string
                          (edit_field_as_text (console_edit_field (console s)))
                        :: tail
          /\ filter is_eval tail = []
          /\ filter is_collect tail = [])
      /\ console_gc (console s') = gc'
      /\ console_scope (console s') = console_scope (console s)
      /\ world s' = world s)
  /\ (forall (PF : Platform) (TK : Toolkit) (event : SDL_Event) (s : Session)
             (error_message : string) (gc' : Gc),
         is_return_key event ->
         Script.read_expr_from_string (console_gc (console s))
           (edit_field_as_text (console_edit_field (console s)))
         = (parse_failure error_message, gc') ->
         console_gc (console (snd (console_handle_event (RT := Script.runtime)
                                                        event s)))
         = gc'
         /\ extends (console_gc (console s)) gc')
  /\ (forall (PF : Platform) (TK : Toolkit) (event : SDL_Event)
             (s t : Session)
             (error_message : string) (gc' : Gc)
             (expr : Expr) (end_ : nat) (gc1 gc2 : Gc) (r : EvalResult)
             (scope2 : Scope) (w2 : World),
         is_return_key event ->
         Script.read_expr_from_string (console_gc (console s))
           (edit_field_as_text (console_edit_field (console s)))
         = (parse_failure error_message, gc') ->
         below (fresh (console_gc (console s)))
               (scope_expr (console_scope (console s))) ->
         console_gc (console t)
         = console_gc (console (snd (console_handle_event (RT := Script.runtime)
                                                          event s))) ->
         console_scope (console t)
         = console_scope
             (console (snd (console_handle_event (RT := Script.runtime)
                                                 event s))) ->
         Script.read_expr_from_string (console_gc (console t))
           (edit_field_as_text (console_edit_field (console t)))
         = (parse_success expr end_, gc1) ->
         Script.eval gc1 (console_scope (console t)) expr (world t)
         = (Done (r, gc2, scope2), w2) ->
         forall p, fresh (console_gc (console s)) <= p ->
           ~ In p (live (console_gc
                           (console (snd (console_handle_event
                                            (RT := Script.runtime) event t)))))).
Proof.
  split; [exact failed_parse_effects | split].
  - intros PF TK event s error_message gc' Hev Hread.
    destruct (failed_parse_effects Script.runtime TK event s error_message gc'
                                   Hev Hread)
      as (_ & Hgc & _).
    split; [exact Hgc | ].
    pose proof (read_extends (console_gc (console s))
                  (edit_field_as_text (console_edit_field (console s)))) as Hext.
    rewrite Hread in Hext. exact Hext.
  - intros PF TK event s t error_message gc' expr end_ gc1 gc2 r scope2 w2
           Hev Hfail Hbelow Hgc Hscope Hread Heval p Hp.
    destruct (failed_parse_effects Script.runtime TK event s error_message gc'
                                   Hev Hfail)
      as (_ & _ & Hsame & _).
    apply (round_releases_the_unreachable event t (fresh (console_gc (console s)))
             expr end_ gc1 gc2 r scope2 w2 Hev Hread Heval); [ | exact Hp].
    rewrite Hscope, Hsame. exact Hbelow.
Qed.

Lemma failed_parse_skips_eval_and_collection_witness :
  In 9 (live (console_gc (console after_scenario_c)))
  /\ In 10 (live (console_gc (console after_scenario_c)))
  /\ ~ In 9 (live (console_gc
                     (console (snd (console_handle_event (RT := @Script.runtime Plain.platform)
                                      return_key (next_line scenario_b))))))
  /\ ~ In 10 (live (console_gc
                      (console (snd (console_handle_event (RT := @Script.runtime Plain.platform)
                                       return_key (next_line scenario_b)))))).
Proof.
  assert (below 9 (scope_expr (console_scope (demo_console 0 scenario_c))))
    as Hbelow by (repeat constructor).
  split; [vm_compute; tauto | split; [vm_compute; tauto | ] ].
  split;
    apply (proj2 (proj2 failed_parse_skips_eval_and_collection)
             Plain.platform (Plain.toolkit 0) return_key
             (demo_session 0 scenario_c) (next_line scenario_b)
             "Expected )"
             {| live := [10; 9; 8; 7; 6; 5; 4; 3; 2; 1]; fresh := 11 |}
             (Pair 13 (Symbol 11 "unbound-name") (Nil 12)) 14
             {| live := [13; 12; 11; 10; 9; 8; 7; 6; 5; 4; 3; 2; 1]; fresh := 14 |}
             {| live := [13; 12; 11; 10; 9; 8; 7; 6; 5; 4; 3; 2; 1]; fresh := 14 |}
             (eval_failure (Symbol 11 "unbound-name"))
             (console_scope (demo_console 0 scenario_c)) player_world
             (conj eq_refl eq_refl) eq_refl Hbelow eq_refl eq_refl
             eq_refl eq_refl);
    cbn; lia.
Defined.

(** C10: in a round that parses and evaluates, the handler calls
    [gc_collect] on the expression of the scope chain, as [eval] left it,
    and on nothing else: the result of the evaluation is no part of the
    call. The only use of the result, the printing of an error payload,
    comes before that call; the calls after it take no expression at all.
    With the runtime of the specification, a result allocated during the
    round and not reachable from the scope chain is released by that very
    collection. *)
Theorem collection_root_is_the_scope :
  (forall (RT : Runtime) (TK : Toolkit) (event : SDL_Event) (s : Session)
          (expr : Expr) (end_ : nat) (gc1 gc2 : Gc) (r : EvalResult)
          (scope2 : Scope) (w2 : World),
      is_return_key event ->
      read_expr_from_string (console_gc (console s))
        (edit_field_as_text (console_edit_field (console s)))
      = (parse_success expr end_, gc1) ->
      eval gc1 (console_scope (console s)) expr (world s)
      = (Done (r, gc2, scope2), w2) ->
      let s' := snd (console_handle_event event s) in
      (exists after,
          calls s' = calls s
                     ++ Call_read_expr_from_string
                          (edit_field_as_text (console_edit_field (console s)))
                        :: Call_eval expr
                        :: report_calls r
                        ++ Call_gc_collect (scope_expr scope2) :: after
          /\ Forall (fun c => call_exprs c = []) after
          /\ collections after = 0)
      /\ collections (report_calls r) = 0
      /\ (eval_is_error r = true ->
          In (Call_print_expr_as_sexpr (eval_expr r)) (report_calls r))
      /\ console_gc (console s') = gc_collect gc2 (scope_expr scope2))
  /\ (forall (PF : Platform) (TK : Toolkit) (event : SDL_Event) (s : Session)
             (expr : Expr) (end_ : nat) (gc1 gc2 : Gc) (r : EvalResult)
             (scope2 : Scope) (w2 : World),
         is_return_key event ->
         Script.read_expr_from_string (console_gc (console s))
           (edit_field_as_text (console_edit_field (console s)))
         = (parse_success expr end_, gc1) ->
         Script.eval gc1 (console_scope (console s)) expr (world s)
         = (Done (r, gc2, scope2), w2) ->
         below (fresh (console_gc (console s)))
               (scope_expr (console_scope (console s))) ->
         fresh (console_gc (console s)) <= address (eval_expr r) ->
         ~ In (address (eval_expr r))
              (live (console_gc
                       (console (snd (console_handle_event
                                        (RT := Script.runtime) event s)))))).
Proof.
  split.
  - intros RT TK event s expr end_ gc1 gc2 r scope2 w2 Hev Hread Heval s'.
    subst s'.
    rewrite (parsed_run event s expr end_ gc1 gc2 r scope2 w2 Hev Hread Heval).
    assert (eval_is_error r = true ->
            In (Call_print_expr_as_sexpr (eval_expr r)) (report_calls r)) as Hin.
    { unfold report_calls. intros E. rewrite E. right; left; reflexivity. }
    destruct (Z.ltb _ 0);
      cbn [snd calls console console_gc with_log with_edit_field with_runtime];
      (split; [ | split; [apply report_calls_no_collection
                         | split; [exact Hin | reflexivity]]]).
    + eexists. split; [reflexivity | ].
      split; [repeat constructor | reflexivity].
    + eexists. split; [rewrite <- !app_assoc; cbn; reflexivity | ].
      split; [repeat constructor | reflexivity].
  - intros PF TK event s expr end_ gc1 gc2 r scope2 w2 Hev Hread Heval Hbelow Hp.
    exact (round_releases_the_unreachable event s (fresh (console_gc (console s)))
             expr end_ gc1 gc2 r scope2 w2 Hev Hread Heval Hbelow
             (address (eval_expr r)) Hp).
Qed.

Lemma collection_root_is_the_scope_witness :
  (exists after,
      calls (snd (console_handle_event (RT := @Script.runtime Plain.platform) return_key
                                       (demo_session 0 "10")))
      = Call_read_expr_from_string "10"
        :: Call_eval (Number 9 10)
        :: Call_gc_collect (scope_expr (console_scope (demo_console 0 "10")))
        :: after)
  /\ ~ In 9 (live (console_gc
                     (console (snd (console_handle_event (RT := @Script.runtime Plain.platform)
                                      return_key (demo_session 0 "10")))))).
Proof.
  split.
  - destruct (proj1 collection_root_is_the_scope
                (@Script.runtime Plain.platform) (Plain.toolkit 0) return_key
                (demo_session 0 "10") (Number 9 10) 2
                {| live := [9; 8; 7; 6; 5; 4; 3; 2; 1]; fresh := 10 |}
                {| live := [9; 8; 7; 6; 5; 4; 3; 2; 1]; fresh := 10 |}
                (eval_success (Number 9 10))
                (console_scope (demo_console 0 "10")) player_world
                (conj eq_refl eq_refl) eq_refl eq_refl)
      as ((after & Hcalls & _) & _).
    exists after. exact Hcalls.
  - apply (proj2 collection_root_is_the_scope
             Plain.platform (Plain.toolkit 0) return_key
             (demo_session 0 "10") (Number 9 10) 2
             {| live := [9; 8; 7; 6; 5; 4; 3; 2; 1]; fresh := 10 |}
             {| live := [9; 8; 7; 6; 5; 4; 3; 2; 1]; fresh := 10 |}
             (eval_success (Number 9 10))
             (console_scope (demo_console 0 "10")) player_world
             (conj eq_refl eq_refl) eq_refl eq_refl).
    + repeat constructor.
    + cbn. lia.
Defined.

(* ===================================================================== *)
(** * Creation of the console *)
(* ===================================================================== *)

(** In a chain of one binding, the bound symbol resolves to the bound
    value, whatever the address of the symbol asked for, and nothing else
    resolves. *)
Lemma single_binding_found (p1 p2 p3 p4 p5 ps q : ptr) (sym : string)
      (value : Expr) :
  Script.get_scope_value
    {| scope_expr :=
         Pair p1 (Pair p2 (Pair p3 (Symbol ps sym) value) (Nil p4)) (Nil p5) |}
    (Symbol q sym)
  = Some value.
Proof.
  cbn. rewrite String.eqb_refl. reflexivity.
Qed.

Lemma single_binding_only (p1 p2 p3 p4 p5 ps : ptr) (sym : string)
      (value name v : Expr) :
  Script.get_scope_value
    {| scope_expr :=
         Pair p1 (Pair p2 (Pair p3 (Symbol ps sym) value) (Nil p4)) (Nil p5) |}
    name
  = Some v ->
  (exists q, name = Symbol q sym) /\ v = value.
Proof.
  destruct name; cbn; try discriminate.
  destruct (String.eqb_spec sym sym0) as [E | E]; [ | discriminate].
  subst. intros H. inversion H. split; [eexists; reflexivity | reflexivity].
Qed.

(** C7: [create_console] binds, by one call of [set_scope_value] on the
    empty chain [CONS(NIL, NIL)], the symbol [rect-apply-force] to the
    [Native] value that wraps [rect_apply_force] and the level pointer it
    was given. With the scope of the specification, that symbol resolves to
    that value, calling it runs [rect_apply_force], and nothing else
    resolves in the scope of the new console: it is the one binding through
    which a script reaches the level. *)
Theorem create_console_registers_the_native :
  (forall (RT : Runtime) (TK : Toolkit) (level : ptr) (font : Sprite_font)
          (c : Console),
      create_console level font = Done (Some c) ->
      exists gc0,
        create_gc = Some gc0
        /\ let nil1 := NIL gc0 in
           let nil2 := NIL (snd nil1) in
           let chain := CONS (snd nil2) (fst nil1) (fst nil2) in
           let name := SYMBOL (snd chain) "rect-apply-force" in
           let native := NATIVE (snd name) Rect_apply_force level in
           fst name = Symbol (fresh (snd chain)) "rect-apply-force"
           /\ fst native = Native (fresh (snd name)) Rect_apply_force level
           /\ set_scope_value (snd native) {| scope_expr := fst chain |}
                              (fst name) (fst native)
              = Done (console_gc c, console_scope c)
           /\ console_level c = level)
  /\ (forall (PF : Platform) (TK : Toolkit) (level : ptr) (font : Sprite_font)
             (c : Console),
         create_console (RT := Script.runtime) level font = Done (Some c) ->
         (forall p, Script.get_scope_value (console_scope c)
                                           (Symbol p "rect-apply-force")
                    = Some (Native 5 Rect_apply_force level))
         /\ call_native Rect_apply_force = rect_apply_force
         /\ (forall name value,
                Script.get_scope_value (console_scope c) name = Some value ->
                (exists p, name = Symbol p "rect-apply-force")
                /\ value = Native 5 Rect_apply_force level)
         /\ console_level c = level).
Proof.
  split.
  - intros RT TK level font c. unfold create_console.
    destruct create_lt; cbn; [ | discriminate].
    destruct malloc_console; cbn; [ | discriminate].
    destruct create_gc as [gc0 | ]; [ | discriminate].
    cbn. destruct (set_scope_value _ _ _ _) as [[gc scope] | f] eqn:Hset;
      [ | discriminate].
    destruct (create_edit_field font _ _) as [edit_field | ]; [ | discriminate].
    intros H. inversion H; subst; clear H. cbn.
    exists gc0. repeat split. exact Hset.
  - intros PF TK level font c. unfold create_console.
    destruct create_lt; cbn; [ | discriminate].
    destruct malloc_console; cbn; [ | discriminate].
    destruct (create_edit_field font _ _) as [edit_field | ]; [ | discriminate].
    intros H. inversion H; subst; clear H.
    cbn [console_scope console_level].
    split;
      [intros p;
       exact (single_binding_found 8 7 6 1 2 4 p "rect-apply-force"
                                   (Native 5 Rect_apply_force level)) | ].
    split; [reflexivity | ].
    split; [ | reflexivity].
    intros name value H.
    exact (single_binding_only 8 7 6 1 2 4 "rect-apply-force"
                               (Native 5 Rect_apply_force level) name value H).
Qed.

Lemma create_console_registers_the_native_witness :
  Script.get_scope_value (console_scope (demo_console 0 ""))
                         (Symbol 0 "rect-apply-force")
  = Some (Native 5 Rect_apply_force 100).
Proof.
  apply (proj2 create_console_registers_the_native
           Plain.platform (Plain.toolkit 0) 100 tt (demo_console 0 "") eq_refl).
Defined.

(* ===================================================================== *)
(** * Further properties of the handler *)
(* ===================================================================== *)

(** X1: an event that is no return key press is handed to
    [edit_field_handle_event], whose status the handler returns; the heap,
    the scope, the log and the host are left as they were, and the script
    runtime is not called. *)
Theorem other_events_go_to_the_edit_field
        (RT : Runtime) (TK : Toolkit) (event : SDL_Event) (s : Session) :
  ~ is_return_key event ->
  let handled := edit_field_handle_event (console_edit_field (console s)) event in
  let s' := snd (console_handle_event event s) in
  fst (console_handle_event event s) = Done (fst handled)
  /\ console_edit_field (console s') = snd handled
  /\ console_gc (console s') = console_gc (console s)
  /\ console_scope (console s') = console_scope (console s)
  /\ console_log (console s') = console_log (console s)
  /\ world s' = world s
  /\ calls s' = calls s ++ [Call_edit_field_handle_event].
Proof.
  intros Hother. cbv zeta.
  rewrite (other_event_run event s Hother).
  unfold do_edit_field_handle_event.
  destruct (edit_field_handle_event _ event) as [code e'].
  repeat split.
Qed.

Lemma other_events_go_to_the_edit_field_witness :
  fst (console_handle_event (RT := @Script.runtime Plain.platform)
                            {| event_type := SDL_KEYDOWN; event_key_sym := 97 |}
                            (demo_session 0 scenario_b))
  = Done 0%Z
  /\ calls (snd (console_handle_event (RT := @Script.runtime Plain.platform)
                   {| event_type := SDL_KEYDOWN; event_key_sym := 97 |}
                   (demo_session 0 scenario_b)))
     = [Call_edit_field_handle_event].
Proof.
  destruct (other_events_go_to_the_edit_field
              (@Script.runtime Plain.platform) (Plain.toolkit 0)
              {| event_type := SDL_KEYDOWN; event_key_sym := 97 |}
              (demo_session 0 scenario_b))
    as (Hcode & _ & _ & _ & _ & _ & Hcalls).
  - intros [_ Hkey]. discriminate Hkey.
  - split; [exact Hcode | exact Hcalls].
Defined.

(** X2: an evaluation that returns without error is reported nowhere: the
    handler writes nothing to the standard output, and the host is as
    [eval] left it. *)
Theorem success_is_not_reported
        (RT : Runtime) (TK : Toolkit) (event : SDL_Event) (s : Session)
        (expr : Expr) (end_ : nat) (gc1 gc2 : Gc) (r : EvalResult)
        (scope2 : Scope) (w2 : World) :
  is_return_key event ->
  read_expr_from_string (console_gc (console s))
    (edit_field_as_text (console_edit_field (console s)))
  = (parse_success expr end_, gc1) ->
  eval gc1 (console_scope (console s)) expr (world s)
  = (Done (r, gc2, scope2), w2) ->
  eval_is_error r = false ->
  world (snd (console_handle_event event s)) = w2
  /\ filter is_print (calls (snd (console_handle_event event s)))
     = filter is_print (calls s).
Proof.
  intros Hev Hread Heval Hok.
  rewrite (parsed_run event s expr end_ gc1 gc2 r scope2 w2 Hev Hread Heval).
  unfold report_calls, report_output, emit. rewrite Hok.
  destruct w2 as [lv out err].
  destruct (Z.ltb _ 0); cbn [snd world calls levels stdout stderr];
    rewrite ?app_nil_r, ?filter_app; cbn; rewrite ?app_nil_r;
    split; reflexivity.
Qed.

Lemma success_is_not_reported_witness :
  world (snd (console_handle_event (RT := @Script.runtime Plain.platform) return_key
                                   (demo_session 0 "10")))
  = player_world.
Proof.
  apply (success_is_not_reported
           (@Script.runtime Plain.platform) (Plain.toolkit 0) return_key
           (demo_session 0 "10") (Number 9 10) 2
           {| live := [9; 8; 7; 6; 5; 4; 3; 2; 1]; fresh := 10 |}
           {| live := [9; 8; 7; 6; 5; 4; 3; 2; 1]; fresh := 10 |}
           (eval_success (Number 9 10))
           (console_scope (demo_console 0 "10")) player_world
           (conj eq_refl eq_refl) eq_refl eq_refl eq_refl).
Defined.

(** X3: an evaluation that fails is not told apart in the log (the source
    notes that the console does not report eval errors visually): on a
    line that parses and whose evaluation returns, with or without error,
    the handler pushes the line, and nothing else, to the log, in the
    foreground colour; its result and the edit field depend on the status
    of that push alone. *)
Theorem eval_failure_is_not_logged
        (RT : Runtime) (TK : Toolkit) (event : SDL_Event) (s : Session)
        (expr : Expr) (end_ : nat) (gc1 gc2 : Gc) (r : EvalResult)
        (scope2 : Scope) (w2 : World) :
  is_return_key event ->
  read_expr_from_string (console_gc (console s))
    (edit_field_as_text (console_edit_field (console s)))
  = (parse_success expr end_, gc1) ->
  eval gc1 (console_scope (console s)) expr (world s)
  = (Done (r, gc2, scope2), w2) ->
  let source_code := edit_field_as_text (console_edit_field (console s)) in
  let p := log_push_line (console_log (console s)) source_code
                         CONSOLE_FOREGROUND in
  let s' := snd (console_handle_event event s) in
  console_log (console s') = snd p
  /\ fst (console_handle_event event s)
     = Done (if Z.ltb (fst p) 0 then (-1)%Z else 0%Z)
  /\ console_edit_field (console s')
     = (if Z.ltb (fst p) 0 then console_edit_field (console s)
        else edit_field_clean (console_edit_field (console s)))
  /\ exists new,
       calls s' = calls s ++ new
       /\ forall line c, In (Call_log_push_line line c) new ->
                         line = source_code /\ c = CONSOLE_FOREGROUND.
Proof.
  intros Hev Hread Heval. cbv zeta.
  rewrite (parsed_run event s expr end_ gc1 gc2 r scope2 w2 Hev Hread Heval).
  assert (forall line c, ~ In (Call_log_push_line line c) (report_calls r))
    as Hreport.
  { intros line c. unfold report_calls.
    destruct (eval_is_error r); cbn; intuition discriminate. }
  destruct (Z.ltb _ 0);
    cbn [fst snd calls console console_log console_edit_field
         with_log with_edit_field with_runtime];
    repeat split.
  - eexists. split; [reflexivity | ].
    intros line c Hin. cbn in Hin.
    destruct Hin as [Hin | [Hin | Hin]]; try discriminate.
    apply in_app_iff in Hin as [Hin | Hin]; [elim (Hreport _ _ Hin) | ].
    cbn in Hin. destruct Hin as [Hin | [Hin | []]]; try discriminate.
    inversion Hin. split; reflexivity.
  - eexists. split; [rewrite <- !app_assoc; reflexivity | ].
    intros line c Hin. cbn in Hin.
    destruct Hin as [Hin | [Hin | Hin]]; try discriminate.
    apply in_app_iff in Hin as [Hin | Hin]; [elim (Hreport _ _ Hin) | ].
    cbn in Hin. destruct Hin as [Hin | [Hin | [Hin | []]]]; try discriminate.
    inversion Hin. split; reflexivity.
Qed.

Lemma eval_failure_is_not_logged_witness :
  console_log
    (console (snd (console_handle_event (RT := @Script.runtime Plain.platform) return_key
                                        (demo_session 0 scenario_b))))
  = [(scenario_b, CONSOLE_FOREGROUND)].
Proof.
  apply (eval_failure_is_not_logged
           (@Script.runtime Plain.platform) (Plain.toolkit 0) return_key
           (demo_session 0 scenario_b) scenario_b_expr 14
           {| live := [11; 10; 9; 8; 7; 6; 5; 4; 3; 2; 1]; fresh := 12 |}
           {| live := [11; 10; 9; 8; 7; 6; 5; 4; 3; 2; 1]; fresh := 12 |}
           (eval_failure (Symbol 9 "unbound-name"))
           (console_scope (demo_console 0 scenario_b)) player_world
           (conj eq_refl eq_refl) eq_refl eq_refl).
Defined.

(** X4: a return key press that the handler handles to its end gives 0 or
    -1, whatever the line. With 0 the edit field has been cleaned, as the
    last thing done; with -1 the edit field is as it was. *)
Theorem return_code_tells_the_edit_field
        (RT : Runtime) (TK : Toolkit) (event : SDL_Event) (s : Session)
        (code : Z) :
  is_return_key event ->
  fst (console_handle_event event s) = Done code ->
  let s' := snd (console_handle_event event s) in
  (code = 0%Z
   /\ console_edit_field (console s')
      = edit_field_clean (console_edit_field (console s))
   /\ exists before, calls s' = before ++ [Call_edit_field_clean])
  \/ (code = (-1)%Z
      /\ console_edit_field (console s') = console_edit_field (console s)
      /\ ~ In Call_edit_field_clean (skipn (List.length (calls s)) (calls s'))).
Proof.
  intros Hev. cbv zeta.
  destruct (read_expr_from_string (console_gc (console s))
              (edit_field_as_text (console_edit_field (console s))))
    as [[expr end_ | error_message] gc1] eqn:Hread.
  - destruct (eval gc1 (console_scope (console s)) expr (world s))
      as [[[[r gc2] scope2] | f] w2] eqn:Heval.
    + rewrite (parsed_run event s expr end_ gc1 gc2 r scope2 w2 Hev Hread Heval).
      assert (~ In Call_edit_field_clean (report_calls r)) as Hreport.
      { unfold report_calls.
        destruct (eval_is_error r); cbn; intuition discriminate. }
      destruct (Z.ltb _ 0);
        cbn [fst snd calls console console_edit_field
             with_log with_edit_field with_runtime];
        intros H; inversion H; subst; [right | left]; repeat split.
      * rewrite skipn_app, skipn_all, Nat.sub_diag. cbn.
        intros [Hin | [Hin | Hin]]; try discriminate.
        apply in_app_iff in Hin as [Hin | Hin]; [exact (Hreport Hin) | ].
        cbn in Hin. intuition discriminate.
      * eexists. reflexivity.
    + rewrite (parsed_stop event s expr end_ gc1 f w2 Hev Hread Heval).
      discriminate.
  - pose proof (failed_parse_run event s error_message gc1 Hev Hread) as Hrun.
    cbv zeta in Hrun. rewrite Hrun.
    destruct (Z.ltb _ 0); [ | destruct (negb _)];
      cbn [fst snd calls console console_edit_field
           with_log with_edit_field with_runtime];
      intros H; inversion H; subst;
      try (left; repeat split; eexists; reflexivity);
      right; repeat split;
      rewrite <- ?app_assoc, ?skipn_app, ?skipn_all, ?Nat.sub_diag; cbn;
      intuition discriminate.
Qed.

Lemma return_code_tells_the_edit_field_witness :
  console_edit_field
    (console (snd (console_handle_event (RT := @Script.runtime Plain.platform) return_key
                                        (demo_session (-1) scenario_b))))
  = scenario_b.
Proof.
  destruct (return_code_tells_the_edit_field
              (@Script.runtime Plain.platform) (Plain.toolkit (-1)) return_key
              (demo_session (-1) scenario_b) (-1)%Z
              (conj eq_refl eq_refl) eq_refl)
    as [(Hcode & _) | (_ & Hfield & _)].
  - discriminate Hcode.
  - exact Hfield.
Defined.

(* ===================================================================== *)
(** * The scope chain outlives every event *)
(* ===================================================================== *)

Lemma extends_sound (gc gc' : Gc) (scope : Scope) :
  extends gc gc' -> sound gc scope -> sound gc' scope.
Proof.
  intros (new & Hlive & Hnew & Hfresh) [Hbound Hroot]. split.
  - rewrite Hlive. apply Forall_app. split.
    + eapply Forall_impl; [ | exact Hnew]. cbn. intros p Hp. lia.
    + eapply Forall_impl; [ | exact Hbound]. cbn. intros p Hp. lia.
  - eapply Forall_impl; [ | exact Hroot]. cbn. intros p Hp.
    rewrite Hlive. apply in_or_app. right. exact Hp.
Qed.

Lemma sound_below (gc : Gc) (scope : Scope) :
  sound gc scope -> below (fresh gc) (scope_expr scope).
Proof.
  intros [Hbound Hroot]. unfold below.
  rewrite Forall_forall in *. intros p Hp. exact (Hbound p (Hroot p Hp)).
Qed.

(** The collector of the specification keeps exactly the live objects
    the root reaches, and hands out no address again. *)
Lemma gc_collect_keeps (gc : Gc) (root : Expr) :
  fresh (Script.gc_collect gc root) = fresh gc
  /\ forall p, In p (live (Script.gc_collect gc root))
               <-> In p (live gc) /\ In p (Script.reachable root).
Proof.
  split; [reflexivity | ]. intros p. cbn. rewrite filter_In.
  unfold Script.marked. rewrite existsb_exists. split.
  - intros [Hl (q & Hq & E)]. apply Nat.eqb_eq in E. subst. split; assumption.
  - intros [Hl Hr]. split; [exact Hl | ].
    exists p. split; [exact Hr | apply Nat.eqb_refl].
Qed.

(** X5: the root the handler hands to the collector is enough. With a
    reader that only allocates, an evaluator that leaves the scope chain
    live and a collector that keeps the live objects its root reaches,
    every event handled leaves every object of the scope chain live, at an
    address that was handed out, whether the handler returns or stops. *)
Theorem scope_chain_stays_live (RT : Runtime) (TK : Toolkit) :
  (forall gc source_code,
      extends gc (snd (read_expr_from_string gc source_code))) ->
  (forall gc scope expr w r gc' scope' w',
      sound gc scope ->
      eval gc scope expr w = (Done (r, gc', scope'), w') ->
      sound gc' scope') ->
  (forall gc root,
      fresh (gc_collect gc root) = fresh gc
      /\ forall p, In p (live (gc_collect gc root))
                   <-> In p (live gc) /\ In p (Script.reachable root)) ->
  forall (event : SDL_Event) (s : Session),
    sound (console_gc (console s)) (console_scope (console s)) ->
    let s' := snd (console_handle_event event s) in
    sound (console_gc (console s')) (console_scope (console s'))
    /\ below (fresh (console_gc (console s')))
             (scope_expr (console_scope (console s'))).
Proof.
  intros Hreader Heval Hcollect event s Hsound.
  cut (sound (console_gc (console (snd (console_handle_event event s))))
             (console_scope (console (snd (console_handle_event event s))))).
  { intros H. split; [exact H | apply sound_below; exact H]. }
  assert (is_return_key event \/ ~ is_return_key event) as [Hev | Hother].
  { unfold is_return_key.
    destruct (Z.eq_dec (event_type event) SDL_KEYDOWN);
      destruct (Z.eq_dec (event_key_sym event) SDLK_RETURN); tauto. }
  - pose proof (Hreader (console_gc (console s))
                  (edit_field_as_text (console_edit_field (console s)))) as Hext.
    destruct (read_expr_from_string (console_gc (console s))
                (edit_field_as_text (console_edit_field (console s))))
      as [[expr end_ | error_message] gc1] eqn:Hread; cbn [snd] in Hext.
    + pose proof (extends_sound _ _ _ Hext Hsound) as Hsound1.
      destruct (eval gc1 (console_scope (console s)) expr (world s))
        as [[[[r gc2] scope2] | f] w2] eqn:Hrun.
      * rewrite (parsed_run event s expr end_ gc1 gc2 r scope2 w2 Hev Hread Hrun).
        pose proof (Heval _ _ _ _ _ _ _ _ Hsound1 Hrun) as [Hbound Hroot].
        destruct (Hcollect gc2 (scope_expr scope2)) as [Hfresh Hkeep].
        destruct (Z.ltb _ 0);
          cbn [snd console console_gc console_scope
               with_log with_edit_field with_runtime];
          (split;
           [ rewrite Hfresh; rewrite Forall_forall in *; intros p Hp;
             apply Hkeep in Hp; apply Hbound; tauto
           | rewrite Forall_forall in *; intros p Hp;
             apply Hkeep; split; [apply Hroot; exact Hp | exact Hp] ]).
      * rewrite (parsed_stop event s expr end_ gc1 f w2 Hev Hread Hrun).
        exact Hsound1.
    + destruct (failed_parse_effects RT TK event s error_message gc1 Hev Hread)
        as (_ & Hgc & Hscope & _).
      rewrite Hgc, Hscope. exact (extends_sound _ _ _ Hext Hsound).
  - rewrite (other_event_run event s Hother).
    unfold do_edit_field_handle_event.
    destruct (edit_field_handle_event _ event) as [code e']. exact Hsound.
Qed.

Lemma scope_chain_stays_live_witness :
  below 12
        (scope_expr
           (console_scope
              (console (snd (console_handle_event (RT := @Script.runtime Plain.platform)
                               return_key (demo_session 0 scenario_b)))))).
Proof.
  apply (scope_chain_stays_live (@Script.runtime Plain.platform) (Plain.toolkit 0)
           read_extends
           (fun gc scope expr w r gc' scope' w' Hs H =>
              match eval_returned gc scope expr w w' r gc' scope' H with
              | conj Hscope Hext =>
                  eq_ind_r (fun sc => sound gc' sc)
                           (extends_sound gc gc' scope Hext Hs) Hscope
              end)
           gc_collect_keeps
           return_key (demo_session 0 scenario_b)).
  split; repeat (constructor; [cbn; lia || tauto | ]); constructor.
Defined.

(* ===================================================================== *)
(** * Creation, animation and drawing of the console *)
(* ===================================================================== *)

(** X6: [create_console] gives [NULL] as soon as the lifetime tracker, the
    memory of the console or the heap cannot be had, and a [NULL] result
    has no other cause than these three or a missing edit field. A console
    that is created holds the level pointer it was given, the edit field
    and the log as created, and a slide factor of 0. *)
Theorem create_console_failures
        (RT : Runtime) (TK : Toolkit) (level : ptr) (font : Sprite_font) :
  (create_lt = false \/ malloc_console = false \/ create_gc = None ->
   create_console level font = Done None)
  /\ (create_console level font = Done None ->
      create_lt = false \/ malloc_console = false \/ create_gc = None
      \/ create_edit_field font (vec FONT_WIDTH_SCALE FONT_HEIGHT_SCALE)
                           CONSOLE_FOREGROUND = None)
  /\ (forall c, create_console level font = Done (Some c) ->
                console_level c = level
                /\ console_a c = 0%float
                /\ create_edit_field font (vec FONT_WIDTH_SCALE FONT_HEIGHT_SCALE)
                                     CONSOLE_FOREGROUND
                   = Some (console_edit_field c)
                /\ console_log c
                   = create_log font (vec FONT_WIDTH_SCALE FONT_HEIGHT_SCALE)
                                LOG_CAPACITY).
Proof.
  unfold create_console.
  destruct create_lt; cbn;
    [ | split; [reflexivity | split; [tauto | discriminate]]].
  destruct malloc_console; cbn;
    [ | split; [reflexivity | split; [tauto | discriminate]]].
  destruct create_gc as [gc0 | ];
    [ | split; [reflexivity | split; [tauto | discriminate]]].
  cbn.
  assert (~ (true = false \/ true = false \/ Some gc0 = None)) as Hnone
    by (intros [H | [H | H]]; discriminate).
  destruct (set_scope_value _ _ _ _) as [[gc scope] | f];
    [destruct (create_edit_field font _ _) as [edit_field | ] | ];
    (split; [intros H; elim (Hnone H) | split]);
    try discriminate; try tauto.
  intros c H. inversion H; subst. repeat split.
Qed.

Lemma create_console_failures_witness :
  console_a (demo_console 0 "") = 0%float
  /\ console_level (demo_console 0 "") = 100.
Proof.
  destruct (proj2 (proj2 (create_console_failures
                            (@Script.runtime Plain.platform) (Plain.toolkit 0) 100 tt))
              (demo_console 0 "") eq_refl)
    as (Hlevel & Ha & _).
  split; [exact Ha | exact Hlevel].
Defined.

Section Animation.
Context {FO : Float_ops} {TK : Toolkit}.

(** One update keeps the slide factor from passing 1. *)
Lemma console_update_bound (c : Console) (delta_time : float) :
  PrimFloat.ltb 1 (console_a c) = false ->
  PrimFloat.ltb 1 (console_a (snd (console_update c delta_time))) = false.
Proof.
  intros H. unfold console_update.
  destruct (PrimFloat.ltb (console_a c) 1); [ | exact H].
  cbn. destruct (PrimFloat.ltb 1 (f_add _ _)) eqn:E; [reflexivity | exact E].
Qed.

(** One update changes nothing but the slide factor. *)
Lemma console_update_frame (c : Console) (delta_time : float) :
  snd (console_update c delta_time)
  = with_a (console_a (snd (console_update c delta_time))) c.
Proof.
  unfold console_update.
  destruct (PrimFloat.ltb (console_a c) 1); cbn; [reflexivity | ].
  destruct c; reflexivity.
Qed.

(** X7: [console_update] returns 0 and changes nothing of the console but
    the slide factor; a factor that is not below 1 is left as it is, so
    that a console that has slid down stays down. [console_slide_down] sets
    the factor to 0 and nothing else, and after it the factor is not above
    1 whatever the number of updates, the frame times and the rounding of
    the platform. More generally a factor that is not above 1 is not above
    1 after any number of updates. *)
Theorem slide_factor_stays_within (c : Console) (frames : list float) :
  (forall delta_time,
      fst (console_update c delta_time) = 0%Z
      /\ snd (console_update c delta_time)
         = with_a (console_a (snd (console_update c delta_time))) c
      /\ (PrimFloat.ltb (console_a c) 1 = false ->
          snd (console_update c delta_time) = c))
  /\ console_updates frames c = with_a (console_a (console_updates frames c)) c
  /\ console_slide_down c = with_a 0 c
  /\ PrimFloat.ltb 1 (console_a (console_updates frames (console_slide_down c)))
     = false
  /\ (PrimFloat.ltb 1 (console_a c) = false ->
      PrimFloat.ltb 1 (console_a (console_updates frames c)) = false).
Proof.
  assert (forall fs c0, PrimFloat.ltb 1 (console_a c0) = false ->
                        PrimFloat.ltb 1 (console_a (console_updates fs c0)) = false)
    as Hbound.
  { induction fs as [ | dt rest IH]; intros c0 H0; cbn; [exact H0 | ].
    apply IH. apply console_update_bound. exact H0. }
  assert (forall fs c0, console_updates fs c0
                        = with_a (console_a (console_updates fs c0)) c0)
    as Hframe.
  { induction fs as [ | dt rest IH]; intros c0; cbn.
    - destruct c0; reflexivity.
    - transitivity
        (with_a (console_a (console_updates rest (snd (console_update c0 dt))))
                (snd (console_update c0 dt))); [apply IH | ].
      rewrite (console_update_frame c0 dt) at 2. reflexivity. }
  split.
  { intros delta_time.
    split; [unfold console_update;
            destruct (PrimFloat.ltb (console_a c) 1); reflexivity | ].
    split; [apply console_update_frame | ].
    intros H. unfold console_update. rewrite H. reflexivity. }
  split; [apply Hframe | ].
  split; [reflexivity | ].
  split; [apply Hbound; reflexivity | ].
  intros H. apply Hbound. exact H.
Qed.

End Animation.

Lemma slide_factor_stays_within_witness :
  PrimFloat.ltb 1
    (console_a (console_updates (FO := Bench.float_ops)
                                [0.25; 0.25; 0.25]%float (demo_console 0 "")))
  = false.
Proof.
  apply (proj2 (proj2 (proj2 (proj2
           (slide_factor_stays_within (FO := Bench.float_ops)
              (demo_console 0 "") [0.25; 0.25; 0.25]%float))))).
  reflexivity.
Defined.

Section DrawingFacts.
Context {FO : Float_ops} {TK : Toolkit} {SDL : Sdl} {PT : Painters}.

(** X8: [console_render] draws the background, then the log, then the
    edit field, each on the renderer the layer before left, at the height
    the slide factor gives, the edit field one log height below the log. It
    returns -1 right after the first layer whose drawing reports a
    negative status, with the later layers not drawn; it returns 0 exactly
    when none of the three reports a negative status, with all three
    drawn; it throws no error of its own. *)
Theorem console_render_layers (c : Console) (st : Stage) :
  let y := console_y (console_a c) in
  let background :=
    rect 0 y (f_of_int (sdl_w (SDL_RenderGetViewport (renderer st))))
         CONSOLE_HEIGHT in
  let d1 := Draw_fill_rect background CONSOLE_BACKGROUND in
  let d2 := Draw_log_render (vec 0 y) in
  let d3 := Draw_edit_field_render (vec 0 (f_add y LOG_HEIGHT)) in
  let r1 := fill_rect (renderer st) background CONSOLE_BACKGROUND in
  let r2 := log_render (console_log c) (snd r1) (vec 0 y) in
  let r3 := edit_field_render (console_edit_field c) (snd r2)
                              (vec 0 (f_add y LOG_HEIGHT)) in
  ((fst r1 < 0)%Z ->
   console_render c st = (Done (-1)%Z, rendered st (snd r1) [d1]))
  /\ ((0 <= fst r1)%Z -> (fst r2 < 0)%Z ->
      console_render c st = (Done (-1)%Z, rendered st (snd r2) [d1; d2]))
  /\ ((0 <= fst r1)%Z -> (0 <= fst r2)%Z -> (fst r3 < 0)%Z ->
      console_render c st = (Done (-1)%Z, rendered st (snd r3) [d1; d2; d3]))
  /\ ((0 <= fst r1)%Z -> (0 <= fst r2)%Z -> (0 <= fst r3)%Z ->
      console_render c st = (Done 0%Z, rendered st (snd r3) [d1; d2; d3]))
  /\ (fst (console_render c st) = Done 0%Z
      <-> (0 <= fst r1)%Z /\ (0 <= fst r2)%Z /\ (0 <= fst r3)%Z)
  /\ thrown (snd (console_render c st)) = thrown st.
Proof.
  cbv zeta. unfold console_render, rendered, bind, gets, draw, ret. cbn.
  destruct (fill_rect _ _ _) as [r1 rd1]; cbn.
  destruct (Z.ltb_spec r1 0) as [H1 | H1]; cbn.
  { repeat split; try reflexivity; try (intros; lia); try discriminate. }
  destruct (log_render _ rd1 _) as [r2 rd2]; cbn.
  destruct (Z.ltb_spec r2 0) as [H2 | H2]; cbn.
  { rewrite <- ?app_assoc.
    repeat split; try reflexivity; try (intros; lia); try discriminate. }
  destruct (edit_field_render _ rd2 _) as [r3 rd3]; cbn.
  destruct (Z.ltb_spec r3 0) as [H3 | H3]; cbn; rewrite <- ?app_assoc;
    repeat split; try reflexivity; try (intros; lia); try discriminate;
    try assumption.
Qed.


(** The rectangle to draw does not depend on the debug mode. *)
Lemma screen_rect_toggle (camera : camera_t) (view_port : SDL_Rect) (r : Rect) :
  screen_rect (camera_toggle_debug_mode camera) view_port r
  = screen_rect camera view_port r.
Proof. reflexivity. Qed.

(** X10: [camera_fill_rect] makes exactly one drawing call, whatever the
    rectangle: [SDL_RenderFillRect], or [SDL_RenderDrawRect] in debug mode,
    on the rectangle [screen_rect] gives. It returns 0 when that call
    reports no negative status, and -1 after throwing one SDL error when it
    does. With the debug mode toggled, the same call draws the very same
    rectangle with the other function. *)
Theorem debug_mode_keeps_the_rectangle
        (camera : camera_t) (r : Rect) (st : Stage) :
  let sdl_rect := screen_rect camera (SDL_RenderGetViewport (renderer st)) r in
  let call :=
    if Z.eqb (debug_mode camera) 0
    then SDL_RenderFillRect (renderer st) sdl_rect
    else SDL_RenderDrawRect (renderer st) sdl_rect in
  let st' := snd (camera_fill_rect camera r st) in
  fst (camera_fill_rect camera r st)
  = Done (if Z.ltb (fst call) 0 then (-1)%Z else 0%Z)
  /\ renderer st' = snd call
  /\ drawn st'
     = drawn st ++ [if Z.eqb (debug_mode camera) 0
                    then Draw_SDL_RenderFillRect sdl_rect
                    else Draw_SDL_RenderDrawRect sdl_rect]
  /\ thrown st'
     = thrown st ++ (if Z.ltb (fst call) 0 then [ERROR_TYPE_SDL2] else [])
  /\ drawn (snd (camera_fill_rect (camera_toggle_debug_mode camera) r st))
     = drawn st ++ [if Z.eqb (debug_mode camera) 0
                    then Draw_SDL_RenderDrawRect sdl_rect
                    else Draw_SDL_RenderFillRect sdl_rect].
Proof.
  cbv zeta.
  unfold camera_fill_rect, bind, gets, draw, throw_error, modify, ret.
  rewrite screen_rect_toggle. cbn.
  destruct (Z.eqb (debug_mode camera) 0); cbn;
    destruct (SDL_RenderFillRect (renderer st) _) as [s1 rd1];
    destruct (SDL_RenderDrawRect (renderer st) _) as [s2 rd2];
    cbn;
    destruct (Z.ltb s1 0); destruct (Z.ltb s2 0); cbn;
    rewrite ?app_nil_r; repeat split; reflexivity.
Qed.

End DrawingFacts.


Lemma debug_mode_keeps_the_rectangle_witness :
  drawn (snd (camera_fill_rect (FO := Bench.float_ops)
                {| debug_mode := 0; position := vec 0 0 |}
                (rect 1 2 3 4) (Bench.stage (-1))))
  = [Draw_SDL_RenderFillRect (mkSDL_Rect 802 454 6 8)]
  /\ thrown (snd (camera_fill_rect (FO := Bench.float_ops)
                    {| debug_mode := 0; position := vec 0 0 |}
                    (rect 1 2 3 4) (Bench.stage (-1))))
     = [ERROR_TYPE_SDL2].
Proof.
  destruct (debug_mode_keeps_the_rectangle (FO := Bench.float_ops)
              {| debug_mode := 0; position := vec 0 0 |} (rect 1 2 3 4)
              (Bench.stage (-1)))
    as (_ & _ & Hdrawn & Hthrown & _).
  split; [exact Hdrawn | exact Hthrown].
Defined.

(** With drawing functions that report -1, [console_render] gives up after
    the background. *)
Lemma console_render_layers_witness :
  fst (console_render (FO := Bench.float_ops) (PT := Bench.painters (-1))
                      (demo_console 0 "") (Bench.stage (-1)))
  = Done (-1)%Z
  /\ List.length
       (drawn (snd (console_render (FO := Bench.float_ops)
                                   (PT := Bench.painters (-1))
                                   (demo_console 0 "") (Bench.stage (-1)))))
     = 1.
Proof.
  rewrite (proj1 (console_render_layers (FO := Bench.float_ops)
                    (PT := Bench.painters (-1))
                    (demo_console 0 "") (Bench.stage (-1)))
             eq_refl).
  split; reflexivity.
Defined.

(* ===================================================================== *)
(** * The arguments the native callback accepts *)
(* ===================================================================== *)


